(** * Microtuning: period inference and frequency-table extension

    A shallow embedding of [src/tuning.cpp] (setBfree's MTS-ESP microtuning
    support) and the verification of its specification.

    - A C [double] is a primitive binary64 [float]: every arithmetic
      operation and comparison of the source is the IEEE 754 operation of
      [PrimFloat] (round to nearest even, no contraction of a product and a
      difference into one fused operation, no excess precision).
    - A C [int] is a [Z]; every [int] of this code stays between -1 and the
      requested table length.
    - The array behind [double *frequency] is a [list float].  An access
      outside the array is undefined in C; the theorems assume the array
      holds the entries the code touches.
    - [assert] is enabled (as in the test build): a failed assertion is the
      outcome [None]. *)

From Stdlib Require Import ZArith List Bool Lia.
From Stdlib Require Import Uint63 Floats.
Import ListNotations.

Set Warnings "-inexact-float".
Local Open Scope Z_scope.

(** ** The program *)

Module Tuning.

(** The conversion of an [int] operand to [double] (usual arithmetic
    conversions in [period * frequency[i]]). *)
Definition double_of_int (z : Z) : float :=
  if z <? 0 then PrimFloat.opp (PrimFloat.of_uint63 (Uint63.of_Z (- z)))
  else PrimFloat.of_uint63 (Uint63.of_Z z).

(** [frequency[i]] *)
Definition load (frequency : list float) (i : Z) : float :=
  nth (Z.to_nat i) frequency PrimFloat.zero.

(** [frequency[i] = v] *)
Fixpoint store_nat (frequency : list float) (i : nat) (v : float) : list float :=
  match frequency, i with
  | [], _ => []
  | _ :: rest, O => v :: rest
  | x :: rest, S i' => x :: store_nat rest i' v
  end.

Definition store (frequency : list float) (i : Z) (v : float) : list float :=
  store_nat frequency (Z.to_nat i) v.

Definition tolerance : float := 1e-6%float.

(** [std::fabs(a - b) < 1e-6] *)
Definition within_tolerance (a b : float) : bool :=
  PrimFloat.ltb (PrimFloat.abs (PrimFloat.sub a b)) tolerance.

(** *** Loops with an early exit *)

(** [n] iterations of [for (...; k++)] from [k]; the body returns [Some r]
    where the source leaves all the loops with [goto end]. *)
Fixpoint for_first {A : Type} (n : nat) (k : Z) (body : Z -> option A) : option A :=
  match n with
  | O => None
  | S n' =>
      match body k with
      | Some r => Some r
      | None => for_first n' (k + 1) body
      end
  end.

(** [for (k = lo; k <= hi; k++)] *)
Definition for_range {A : Type} (lo hi : Z) (body : Z -> option A) : option A :=
  for_first (Z.to_nat (hi + 1 - lo)) lo body.

(** *** inferScaleSize *)

(** The condition of the innermost [if]; [target] is [period * frequency[i]]. *)
Definition accept (frequency : list float) (period i j : Z) (target : float) : bool :=
  within_tolerance (load frequency j) target
  && within_tolerance (load frequency (j + 1))
       (PrimFloat.mul (double_of_int period) (load frequency (i + 1))).

(** [for (j = i; j <= 126; j++)] *)
Definition search_j (frequency : list float) (period i : Z) : option (Z * Z * Z) :=
  let target := PrimFloat.mul (double_of_int period) (load frequency i) in
  for_range i 126 (fun j =>
    if accept frequency period i j target then Some (period, i, j) else None).

(** [for (i = 0; i <= 126; i++)] *)
Definition search_i (frequency : list float) (period : Z) : option (Z * Z * Z) :=
  for_range 0 126 (fun i =>
    if PrimFloat.ltb 10%float (load frequency i) then search_j frequency period i
    else None).

(** [for (period = 2; period <= 100; period++)]: [Some (period, i, j)] is
    the state in which [goto end] is taken. *)
Definition search (frequency : list float) : option (Z * Z * Z) :=
  for_range 2 100 (search_i frequency).

(** The pair written to [( *scaleSizeRet, *periodRet )]. *)
Definition inferScaleSize (frequency : list float) : Z * Z :=
  let '(scaleSize, period) :=
    match search frequency with
    | Some (period, i, j) => (j - i, period)
    | None => (0, 101)
    end in
  if scaleSize =? 0 then (-1, -1) else (scaleSize, period).

(** *** extendFrequencies *)

(** [for (int i = 128; i < length; i++) frequency[i] = rhs;] where [rhs]
    reads the array as it is when the entry is written. *)
Fixpoint extend_loop (n : nat) (i : Z) (rhs : list float -> Z -> float)
    (frequency : list float) : list float :=
  match n with
  | O => frequency
  | S n' => extend_loop n' (i + 1) rhs (store frequency i (rhs frequency i))
  end.

Definition extendFrequencies (frequency : list float) (length : Z)
    : option (list float) :=
  let '(scaleSize, period) := inferScaleSize frequency in
  if scaleSize <=? 128 then
    if 0 <? scaleSize then
      Some (extend_loop (Z.to_nat (length - 128)) 128
              (fun f i => PrimFloat.mul (double_of_int period) (load f (i - scaleSize)))
              frequency)
    else
      Some (extend_loop (Z.to_nat (length - 128)) 128
              (fun f _ => load f 127) frequency)
  else None.

(** *** getFrequencies *)

Section Facade.

(** The MTS-ESP client library is external: this is
    [MTS_NoteToFrequency(client, i, 0)] for the registered client. *)
Variable MTS_NoteToFrequency : Z -> float.

Fixpoint sample_loop (n : nat) (i : Z) (frequency : list float) : list float :=
  match n with
  | O => frequency
  | S n' => sample_loop n' (i + 1) (store frequency i (MTS_NoteToFrequency i))
  end.

(** [for (i = 0; i <= 127; i++)] *)
Definition getMTSESPFrequencies (frequency : list float) : list float :=
  sample_loop 128 0 frequency.

Definition getFrequencies (frequency : list float) (length : Z)
    : option (list float) :=
  if 128 <=? length then
    extendFrequencies (getMTSESPFrequencies frequency) length
  else None.

End Facade.

End Tuning.

Import Tuning.

(** ** The vocabulary of the specification *)

Module Spec.

(** [(period, i, j)] is accepted: a period from 2 to 100, a base from 0 to
    126 that is not skipped (its frequency is not [<= 10.0]), a match from
    the base to 126, and the two points within the tolerance. *)
Definition candidate (frequency : list float) (period i j : Z) : Prop :=
  2 <= period <= 100 /\ 0 <= i <= 126 /\
  PrimFloat.leb (load frequency i) 10%float = false /\
  i <= j <= 126 /\
  within_tolerance (load frequency j)
    (PrimFloat.mul (double_of_int period) (load frequency i)) = true /\
  within_tolerance (load frequency (j + 1))
    (PrimFloat.mul (double_of_int period) (load frequency (i + 1))) = true.

(** The search order: period first, then base, then match. *)
Definition precedes (a b : Z * Z * Z) : Prop :=
  let '(p, i, j) := a in
  let '(p', i', j') := b in
  p < p' \/ (p = p' /\ (i < i' \/ (i = i' /\ j < j'))).

Definition first_acceptance (frequency : list float) (period i j : Z) : Prop :=
  candidate frequency period i j /\
  forall p' i' j', candidate frequency p' i' j' ->
                   ~ precedes (p', i', j') (period, i, j).

(** A result other than the sentinel. *)
Definition found (result : Z * Z) : Prop := result <> (-1, -1).

(** The first 128 entries of two arrays are the same. *)
Definition same_samples (f g : list float) : Prop :=
  forall i, 0 <= i <= 127 -> load f i = load g i.

(** A table that repeats at the octave every 12 steps: finite entries,
    [table[i + 12]] exactly twice [table[i]], and 128 notes that the
    comparison of the search tells apart. *)
Record octave_12 (frequency : list float) : Prop := {
  octave_length : List.length frequency = 128%nat;
  octave_finite : forall i, 0 <= i <= 127 ->
    PrimFloat.is_finite (load frequency i) = true;
  octave_double : forall i, 0 <= i <= 115 ->
    load frequency (i + 12) = PrimFloat.mul (double_of_int 2) (load frequency i);
  octave_steps : forall i j, 0 <= i < j -> j <= 127 ->
    within_tolerance (load frequency i) (load frequency j) = false
}.

(** The same, as a check that runs. *)
Definition octave_12b (frequency : list float) : bool :=
  (List.length frequency =? 128)%nat
  && forallb (fun i => PrimFloat.is_finite (load frequency (Z.of_nat i))) (seq 0 128)
  && forallb (fun i => PrimFloat.Leibniz.eqb (load frequency (Z.of_nat i + 12))
                         (PrimFloat.mul (double_of_int 2) (load frequency (Z.of_nat i))))
       (seq 0 116)
  && forallb (fun j => forallb (fun i =>
         negb (within_tolerance (load frequency (Z.of_nat i)) (load frequency (Z.of_nat j))))
       (seq 0 j)) (seq 0 128).

(** A positive binary64 number [m * 2 ^ e] with a full significand that is
    above 10.0, which is [5629499534213120 * 2 ^ -49]. *)
Definition sf_above_ten (m : positive) (e : Z) : Prop :=
  -49 < e \/ (e = -49 /\ (5629499534213120 < m)%positive).

(** The [double] of a small [int] is the [int] itself, on a full
    significand: a check that runs. *)
Definition int_double_ok (p : Z) : bool :=
  match Prim2SF (double_of_int p) with
  | S754_finite false pm pe =>
      (-51 <=? pe) && (pe <=? -46) && (Zpos pm =? p * 2 ^ (- pe))
      && (2 ^ 52 <=? Zpos pm) && (Zpos pm <? 2 ^ 53)
  | _ => false
  end.

(** A scale of [s] steps that repeats at the octave, as the search measures
    it: the note [s] steps above a note is within the tolerance of twice
    that note, and no note between a base above 10.0 Hz and the note [s]
    steps above it is. *)
Record octave_scale (s : Z) (frequency : list float) : Prop := {
  scale_length : (128 <= List.length frequency)%nat;
  scale_octave : forall i, 0 <= i <= 127 -> i + s <= 127 ->
    within_tolerance (load frequency (i + s))
      (PrimFloat.mul (double_of_int 2) (load frequency i)) = true;
  scale_inside : forall i j, 0 <= i < j -> j < i + s -> j <= 126 ->
    PrimFloat.ltb 10%float (load frequency i) = true ->
    within_tolerance (load frequency j)
      (PrimFloat.mul (double_of_int 2) (load frequency i)) = false
}.

(** The same, as a check that runs. *)
Definition octave_scaleb (s : Z) (frequency : list float) : bool :=
  (128 <=? List.length frequency)%nat
  && forallb (fun n =>
       let i := Z.of_nat n in
       (negb (i + s <=? 127)
        || within_tolerance (load frequency (i + s))
             (PrimFloat.mul (double_of_int 2) (load frequency i)))
       && (negb (PrimFloat.ltb 10%float (load frequency i))
           || forallb (fun m =>
                let j := Z.of_nat m in
                negb ((i <? j) && (j <? i + s))
                || negb (within_tolerance (load frequency j)
                           (PrimFloat.mul (double_of_int 2) (load frequency i))))
                (seq 0 127)))
       (seq 0 128).

(** The assignment in the loop that extendFrequencies runs on a result of
    inferScaleSize. *)
Definition extension_rhs (result : Z * Z) : list float -> Z -> float :=
  let '(scaleSize, period) := result in
  if 0 <? scaleSize then
    fun f i => PrimFloat.mul (double_of_int period) (load f (i - scaleSize))
  else
    fun f _ => load f 127.

End Spec.

Import Spec.

(** ** Tables *)

Module Fixtures.

Local Open Scope float_scope.

(** The table of the test case [Testing inferPeriod 19TET]. *)
Definition table_19TET : list float := [
    29.312923989933967; 30.40204690044455; 31.531636400145715; 32.70319566257484;
    33.91828425814626; 35.17851972424315; 36.485579088320186; 37.84120251603355;
    39.24719397002958; 40.705425330123695; 42.21783710195307; 43.78644284901423;
    45.41332995495425; 47.1006643910718; 48.850691536306506; 50.66574130559508;
    52.54822903192615; 54.50066098286453; 56.5256353093695; 58.625847979867935;
    60.8040938008891; 63.06327280029143; 65.40639132514968; 67.83656851629252;
    70.3570394484863; 72.97115817664037; 75.6824050320671; 78.49438794005916;
    81.41085066024739; 84.43567420390615; 87.57288569802846; 90.8266599099085;
    94.2013287821436; 97.70138307261301; 101.33148261119015; 105.0964580638523;
    109.00132196572906; 113.051270618739; 117.25169595973587; 121.6081876017782;
    126.12654560058286; 130.81278265029937; 135.67313703258498; 140.71407889697258;
    145.94231635328075; 151.3648100641342; 156.9887758801183; 162.82170132049478;
    168.8713484078123; 175.14577139605697; 181.653319819817; 188.4026575642872;
    195.40276614522597; 202.6629652223803; 210.1929161277046; 218.00264393145807;
    226.102541237478; 234.50339191947174; 243.21637520355648; 252.2530912011658;
    261.62556530059874; 271.34627406516995; 281.42815779394516; 291.8846327065615;
    302.7296201282684; 313.9775517602366; 325.64340264098956; 337.7426968156246;
    350.29154279211394; 363.306639639634; 376.8053151285744; 390.80553229045194;
    405.3259304447606; 420.3858322554092; 436.00528786291613; 452.205082474956;
    469.0067838389435; 486.43275040711296; 504.5061824023316; 523.2511306011975;
    542.6925481303399; 562.8563155878903; 583.769265413123; 605.4592402565368;
    627.9551035204732; 651.2868052819791; 675.4853936312492; 700.5830855842279;
    726.613279279268; 753.6106302571488; 781.6110645809039; 810.6518608895212;
    840.7716645108184; 872.0105757258323; 904.410164949912; 938.013567677887;
    972.8655008142259; 1009.0123648046632; 1046.502261202395; 1085.3850962606798;
    1125.7126311757806; 1167.538530826246; 1210.9184805130735; 1255.9102070409465;
    1302.5736105639583; 1350.9707872624983; 1401.1661711684558; 1453.226558558536;
    1507.2212605142977; 1563.2221291618077; 1621.3037217790425; 1681.5433290216367;
    1744.0211514516645; 1808.820329899824; 1876.027135355774; 1945.7310016284518;
    2018.0247296093264; 2093.00452240479; 2170.7701925213596; 2251.4252623515613;
    2335.0770616524906; 2421.8369610261457; 2511.8204140818916; 2605.1472211279147;
    2701.9415745249967; 2802.3323423369116; 2906.453117117072; 3014.4425210285954
  ].

(** The table of the test case [Testing inferPeriod Bohlen-Pierce]. *)
Definition table_BohlenPierce : list float := [
    1.642790111337959; 1.7876550383579546; 1.9452944692397185; 2.116834898712101;
    2.3035021480099007; 2.506630134033841; 2.7276704014688447; 2.968202495465875;
    3.229945250624673; 3.5147690673915934; 3.8247092871631745; 4.161980730690898;
    4.5289935265878265; 4.928370334013877; 5.362965115073864; 5.835883407719154;
    6.350504696136302; 6.910506444029701; 7.519890402101522; 8.183011204406533;
    8.904607486397621; 9.689835751874021; 10.544307202174782; 11.474127861489524;
    12.485942192072697; 13.586980579763477; 14.785111002041633; 16.088895345221594;
    17.507650223157466; 19.051514088408908; 20.731519332089103; 22.559671206304564;
    24.549033613219596; 26.713822459192862; 29.06950725562206; 31.63292160652436;
    34.42238358446859; 37.45782657621811; 40.76094173929046; 44.35533300612493;
    48.26668603566481; 52.52295066947242; 57.15454226522675; 62.19455799626734;
    67.67901361891373; 73.64710083965883; 80.14146737757864; 87.20852176686623;
    94.89876481957306; 103.26715075340576; 112.37347972865436; 122.28282521787138;
    133.0659990183748; 144.80005810699447; 157.56885200841734; 171.46362679568034;
    186.583673988802; 203.0370408567413; 220.94130251897647; 240.42440213273596;
    261.62556530059874; 284.69629445871936; 309.80145226021745; 337.12043918596305;
    366.84847565361434; 399.1979970551244; 434.40017432098335; 472.706556025252;
    514.390880387041; 559.7510219664063; 609.1111225702239; 662.8239075569297;
    721.2732063982082; 784.8766959017962; 854.088883376158; 929.4043567806523;
    1011.3613175578897; 1100.5454269608429; 1197.5939911653738; 1303.2005229629508;
    1418.1196680757569; 1543.1726411611228; 1679.2530658992198; 1827.3333677106714;
    1988.4717226707905; 2163.8196191946245; 2354.630087705388; 2562.2666501284752;
    2788.21307034196; 3034.0839526736704; 3301.636280882529; 3592.7819734961236;
    3909.6015688888547; 4254.35900422727; 4629.517923483374; 5037.759197697659;
    5482.0001031320135; 5965.415168012371; 6491.458857583873; 7063.890263116174;
    7686.799950385435; 8364.63921102588; 9102.25185802101; 9904.908842647597;
    10778.34592048837; 11728.804706666562; 12763.077012681826; 13888.553770450122;
    15113.277593092977; 16446.00030939606; 17896.24550403713; 19474.376572751644;
    21191.670789348515; 23060.399851156275; 25093.91763307764; 27306.75557406303;
    29714.726527942792; 32335.037761465104; 35186.41411999968; 38289.23103804547;
    41665.66131135036; 45339.832779278986; 49338.00092818817; 53688.736512111325;
    58423.129718254924; 63575.01236804554; 69181.19955346883; 75281.7528992329
  ].

(** The table of the test case [Testing inferPeriod p4.scl]. *)
Definition table_p4 : list float := [
    5.5107356640386095e-11; 1.1021471328077219e-10; 1.6532206992115805e-10; 2.755367832019303e-10;
    3.8575149648270303e-10; 7.715029929654061e-10; 1.1572544894481074e-09; 1.9287574824135143e-09;
    2.7002604753789237e-09; 5.400520950757821e-09; 8.100781426136721e-09; 1.3501302376894546e-08;
    1.890182332765239e-08; 3.780364665530478e-08; 5.6705469982957235e-08; 9.45091166382619e-08;
    1.3231276329356686e-07; 2.6462552658713373e-07; 3.9693828988070107e-07; 6.615638164678341e-07;
    9.26189343054969e-07; 1.852378686109938e-06; 2.77856802916491e-06; 4.630946715274843e-06;
    6.48332540138479e-06; 1.2966650802769545e-05; 1.9449976204154344e-05; 3.241662700692385e-05;
    4.538327780969346e-05; 9.076655561938692e-05; 0.0001361498334290805; 0.00022691638904846718;
    0.00031768294466785453; 0.0006353658893357091; 0.0009530488340035646; 0.0015884147233392717;
    0.002223780612674981; 0.004447561225349957; 0.006671341838024934; 0.011118903063374885;
    0.015566464288724843; 0.031132928577449724; 0.04669939286617458; 0.07783232144362429;
    0.108965250021074; 0.217930500042148; 0.32689575006322197; 0.5448262501053698;
    0.7627567501475179; 1.5255135002950357; 2.288270250442553; 3.8137837507375876;
    5.339297251032623; 10.678594502065254; 16.017891753097885; 26.69648625516313;
    37.37508075722839; 74.75016151445678; 112.1252422716852; 186.87540378614193;
    261.62556530059874; 523.2511306011975; 784.8766959017962; 1308.1278265029932;
    1831.3789571041907; 3662.7579142083814; 5494.136871312571; 9156.89478552096;
    12819.652699729331; 25639.305399458663; 38458.958099188036; 64098.2634986467;
    89737.56889810541; 179475.13779621082; 269212.70669431624; 448687.8444905268;
    628162.9822867368; 1256325.9645734737; 1884488.9468602128; 3140814.9114336832;
    4397140.876007163; 8794281.752014326; 13191422.628021503; 21985704.380035803;
    30779986.132050168; 61559972.264100336; 92339958.3961506; 153899930.66025075;
    215459902.9243514; 430919805.8487017; 646379708.7730533; 1077299514.621754;
    1508219320.4704573; 3016438640.9409146; 4524657961.411378; 7541096602.352284;
    10557535243.293213; 21115070486.586426; 31672605729.879673; 52787676216.46591;
    73902746703.05237; 147805493406.10474; 221708240109.15796; 369513733515.2618;
    517319226921.3671; 1034638453842.7343; 1551957680764.0994; 2586596134606.8345;
    3621234588449.5737; 7242469176899.147; 10863703765348.707; 18106172942247.86;
    25348642119147.035; 50697284238294.07; 76045926357441.02; 126743210595735.16;
    177440494834029.47; 354880989668057.1; 532321484502085.0; 887202474170142.5;
    1242083463838201.2; 2484166927676402.5; 3726250391514599.0; 6210417319191003.0;
    8694584246867417.0; 1.7389168493734834e+16; 2.6083752740602216e+16; 4.347292123433707e+16
  ].

(** The table of the test cases on bagpipe4.scl (period 1190 cents). *)
Definition table_bagpipe4 : list float := [
    2.3943234311985675; 2.6603593679984088; 2.837716659198303; 3.19243124159809;
    3.5471458239978766; 3.724503115197771; 4.232058920873153; 3.7030515557640085;
    4.2320589208731505; 4.761066285982294; 5.290073651091439; 5.642745227830868;
    6.348088381309726; 7.053431534788587; 7.406103111528017; 8.415368110219507;
    7.363447096442065; 8.415368110219505; 9.467289123996942; 10.519210137774383;
    11.220490813626006; 12.623052165329256; 14.025613517032506; 14.726894192884133;
    16.733798312970627; 14.642073523849303; 16.73379831297063; 18.825523102091957;
    20.917247891213293; 22.31173108396084; 25.10069746945594; 27.88966385495105;
    29.284147047698607; 33.27483745353056; 29.115482771839236; 33.27483745353056;
    37.434192135221885; 41.5935468169132; 44.36644993804073; 49.91225618029583;
    55.45806242255093; 58.23096554367847; 66.16637698451645; 57.895579861451886;
    66.16637698451645; 74.43717410758099; 82.70797123064557; 88.22183597935526;
    99.24956547677465; 110.27729497419405; 115.79115972290377; 131.5705733911144;
    115.12425171722516; 131.5705733911144; 148.0168950650038; 164.46321673889307;
    175.42743118815258; 197.3558600866716; 219.28428898519078; 230.24850343445033;
    261.62556530059874; 228.92236963802384; 261.62556530059874; 294.3287609631735;
    327.0319566257485; 348.834087067465; 392.4383479508981; 436.0426088343311;
    457.8447392760477; 520.2374258519455; 455.2077476204522; 520.2374258519455;
    585.2671040834387; 650.2967823149316; 693.649901135927; 780.3561387779183;
    867.062376419909; 910.4154952409044; 1034.4821575295762; 905.1718878383793;
    1034.4821575295762; 1163.7924272207729; 1293.1026969119705; 1379.309543372768;
    1551.7232362943641; 1724.1369292159607; 1810.3437756767587; 2057.0479574677925;
    1799.9169627843191; 2057.0479574677925; 2314.178952151269; 2571.3099468347427;
    2742.7306099570565; 3085.5719362016885; 3428.4132624463195; 3599.833925568636;
    4090.4004660915975; 3579.1004078301467; 4090.4004660915975; 4601.700524353047;
    5113.000582614502; 5453.867288122131; 6135.600699137396; 6817.33411015266;
    7158.200815660293; 8133.682985980809; 7116.972612733206; 8133.682985980809;
    9150.393359228408; 10167.103732476018; 10844.910647974411; 12200.52447897121;
    13556.13830996801; 14233.945225466412; 16173.67283835827; 14151.963733563483;
    16173.67283835825; 18195.38194315303; 20217.09104794783; 21564.89711781103;
    24260.509257537404; 26956.121397263774; 28303.927467126967; 32161.038674991334;
    28140.90884061741; 32161.038674991334; 36181.16850936524; 40201.298343739145
  ].

(** The ratios of the twelve equal-tempered steps of an octave. *)
Definition semitones : list float :=
  [ 1; 1.0594630943592953; 1.122462048309373; 1.189207115002721;
    1.2599210498948732; 1.3348398541700344; 1.4142135623730951;
    1.4983070768766815; 1.5874010519681994; 1.681792830507429;
    1.7817974362806785; 1.8877486253633868 ].

Fixpoint octaves (n : nat) (notes : list float) : list float :=
  match n with
  | O => []
  | S n' => notes ++ octaves n' (map (PrimFloat.mul (double_of_int 2)) notes)
  end.

(** 128 notes of 12-tone equal temperament from the frequency of note 0. *)
Definition twelveTET (base : float) : list float :=
  firstn 128 (octaves 11 (map (PrimFloat.mul base) semitones)).

(** Note 0 at 8.1757989156437 Hz (note 69 at 440 Hz), and at 0.001 Hz. *)
Definition table_12TET : list float := twelveTET 8.1757989156437.
Definition table_12TET_low : list float := twelveTET 0.001.

(** Two notes a factor 2 apart up to a deviation, then silence. *)
Definition table_deviation (dev : float) : list float :=
  [16; 17; 32 + dev; 34 + dev] ++ repeat 0 124.

(** A 128-entry table in a 256-entry array, as the tests declare it. *)
Definition array_256 (table : list float) : list float :=
  table ++ repeat 0 128.

End Fixtures.

Import Fixtures.

(** ** Binary64 arithmetic

    Facts about the IEEE 754 operations, from their specification over
    [spec_float]. *)

Module Binary64.

Lemma digits2_pos_bounds (p : positive) :
  2 ^ (Zpos (digits2_pos p) - 1) <= Zpos p < 2 ^ Zpos (digits2_pos p).
Proof.
  induction p as [p IH | p IH | ]; cbn [digits2_pos].
  - rewrite Pos2Z.inj_succ.
    replace (Z.succ (Zpos (digits2_pos p)) - 1) with (Z.succ (Zpos (digits2_pos p) - 1)) by lia.
    rewrite !Z.pow_succ_r by lia. lia.
  - rewrite Pos2Z.inj_succ.
    replace (Z.succ (Zpos (digits2_pos p)) - 1) with (Z.succ (Zpos (digits2_pos p) - 1)) by lia.
    rewrite !Z.pow_succ_r by lia. lia.
  - cbn. lia.
Qed.

Lemma shr_1_m (mrs : shr_record) :
  0 <= shr_m mrs -> shr_m (shr_1 mrs) = shr_m mrs / 2.
Proof.
  destruct mrs as [m r s]; cbn [shr_m]; intros Hm.
  destruct m as [ | [p | p | ] | p ]; cbn [shr_1 shr_m]; try lia.
  - reflexivity.
  - rewrite Pos2Z.inj_xI. apply Z.div_unique with (r := 1); lia.
  - rewrite Pos2Z.inj_xO. apply Z.div_unique with (r := 0); lia.
  - reflexivity.
Qed.

Lemma iter_shr_1_m (p : positive) : forall mrs,
  0 <= shr_m mrs -> shr_m (iter_pos shr_1 p mrs) = shr_m mrs / 2 ^ Zpos p.
Proof.
  induction p as [p IH | p IH | ]; intros mrs Hm; cbn [iter_pos].
  - assert (H1 : 0 <= shr_m (shr_1 mrs)) by (rewrite shr_1_m by assumption; apply Z.div_pos; lia).
    assert (H2 : 0 <= shr_m (iter_pos shr_1 p (shr_1 mrs))) by (rewrite IH by assumption; apply Z.div_pos; lia).
    rewrite IH, IH, shr_1_m by assumption.
    rewrite !Z.div_div by lia.
    f_equal. replace (Z.pos p~1) with (1 + Z.pos p + Z.pos p) by lia.
    rewrite !Z.pow_add_r by lia. change (2 ^ 1) with 2. ring.
  - assert (H2 : 0 <= shr_m (iter_pos shr_1 p mrs)) by (rewrite IH by assumption; apply Z.div_pos; lia).
    rewrite IH, IH by assumption.
    rewrite !Z.div_div by lia.
    f_equal. replace (Z.pos p~0) with (Z.pos p + Z.pos p) by lia.
    rewrite Z.pow_add_r by lia. reflexivity.
  - rewrite shr_1_m by assumption. reflexivity.
Qed.

Lemma fexp_normal (d : Z) : -1021 <= d -> fexp 53 1024 d = d - 53.
Proof. unfold fexp, SpecFloat.emin. lia. Qed.

Lemma shr_fexp_exact (M : positive) (E : Z) :
  -1021 <= Zpos (digits2_pos M) + E ->
  shr_fexp 53 1024 (Zpos M) E loc_Exact =
    match Zpos (digits2_pos M) - 53 with
    | Zpos n => (iter_pos shr_1 n (Build_shr_record (Zpos M) false false), E + Zpos n)
    | _ => (Build_shr_record (Zpos M) false false, E)
    end.
Proof.
  intros Hd. unfold shr_fexp, shr. cbn [Zdigits2 shr_record_of_loc].
  rewrite fexp_normal by assumption.
  replace (Zpos (digits2_pos M) + E - 53 - E) with (Zpos (digits2_pos M) - 53) by ring.
  destruct (Zpos (digits2_pos M) - 53); reflexivity.
Qed.

Lemma round_nearest_even_bounds (m : Z) (l : location) :
  m <= round_nearest_even m l <= m + 1.
Proof.
  destruct l as [ | [ | | ]]; cbn [round_nearest_even]; try lia.
  destruct (Z.even m); lia.
Qed.

Lemma digits2_pos_53 (p : positive) :
  2 ^ 52 <= Zpos p < 2 ^ 53 -> Zpos (digits2_pos p) = 53.
Proof.
  intros [Hlo Hhi]. pose proof (digits2_pos_bounds p) as [Blo Bhi].
  assert (Zpos (digits2_pos p) - 1 < 53).
  { apply (Z.pow_lt_mono_r_iff 2); lia. }
  assert (52 < Zpos (digits2_pos p)).
  { apply (Z.pow_lt_mono_r_iff 2); lia. }
  lia.
Qed.

(** Rounding a positive integer significand in the normal range: the result
    is an overflow or a finite number that is at least the truncation. *)
Lemma binary_round_aux_lower (s : bool) (M : positive) (E : Z) :
  -1021 <= Zpos (digits2_pos M) + E ->
  let n := Z.max 0 (Zpos (digits2_pos M) - 53) in
  binary_round_aux 53 1024 s (Zpos M) E loc_Exact = S754_infinity s \/
  exists m3 e3,
    binary_round_aux 53 1024 s (Zpos M) E loc_Exact = S754_finite s m3 e3 /\
    E + n <= e3 /\ Zpos M / 2 ^ n <= Zpos m3 * 2 ^ (e3 - E - n).
Proof.
  intros Hd n. unfold binary_round_aux.
  rewrite shr_fexp_exact by assumption.
  pose proof (digits2_pos_bounds M) as [Blo Bhi].
  destruct (Zpos (digits2_pos M) - 53) as [ | k | k ] eqn:Hk.
  - (* exactly 53 digits: nothing is shifted out *)
    cbn [shr_m loc_of_shr_record round_nearest_even].
    rewrite shr_fexp_exact by assumption. rewrite Hk. cbn [shr_m].
    subst n. rewrite Z.max_l by lia.
    destruct (E <=? 1024 - 53); [right | left; reflexivity].
    exists M, E. repeat split; try lia.
    replace (E - E - 0) with 0 by lia. rewrite Z.div_1_r. lia.
  - (* more than 53 digits *)
    set (mrs1 := iter_pos shr_1 k _).
    assert (Hm1 : shr_m mrs1 = Zpos M / 2 ^ Zpos k).
    { unfold mrs1. rewrite iter_shr_1_m; cbn [shr_m]; [reflexivity | lia]. }
    assert (Hpow : 2 ^ (Zpos (digits2_pos M) - 1) = 2 ^ 52 * 2 ^ Zpos k).
    { rewrite <- Z.pow_add_r by lia. f_equal. lia. }
    assert (Hpow' : 2 ^ Zpos (digits2_pos M) = 2 ^ 53 * 2 ^ Zpos k).
    { rewrite <- Z.pow_add_r by lia. f_equal. lia. }
    assert (H2k : 0 < 2 ^ Zpos k) by (apply Z.pow_pos_nonneg; lia).
    assert (Hr1 : 2 ^ 52 <= shr_m mrs1 < 2 ^ 53).
    { rewrite Hm1. split.
      - apply Z.div_le_lower_bound; lia.
      - apply Z.div_lt_upper_bound; lia. }
    pose proof (round_nearest_even_bounds (shr_m mrs1) (loc_of_shr_record mrs1)) as Hrne.
    set (m2 := round_nearest_even (shr_m mrs1) (loc_of_shr_record mrs1)) in *.
    subst n. rewrite Z.max_r by lia.
    destruct m2 as [ | p2 | p2 ] eqn:Hm2; try lia.
    destruct (Z.eq_dec (Zpos p2) (2 ^ 53)) as [Htop | Hntop].
    + (* the significand rounds up to a power of two *)
      assert (Hp2 : p2 = 9007199254740992%positive) by (change (2 ^ 53) with 9007199254740992 in Htop; congruence).
      subst p2.
      assert (Hd54 : Zpos (digits2_pos 9007199254740992) = 54) by reflexivity.
      rewrite shr_fexp_exact by lia.
      rewrite Hd54. change (54 - 53) with 1.
      cbn [iter_pos shr_1 shr_m].
      destruct (E + Zpos k + 1 <=? 1024 - 53); [right | left; reflexivity].
      eexists _, _. split; [reflexivity | ]. split; [lia | ].
      replace (E + Z.pos k + 1 - E - Z.pos k) with 1 by lia.
      rewrite <- Hm1. change (2 ^ 53) with 9007199254740992 in Hr1. lia.
    + assert (Hd2 : Zpos (digits2_pos p2) = 53) by (apply digits2_pos_53; lia).
      rewrite shr_fexp_exact by lia. rewrite Hd2. change (53 - 53) with 0.
      cbn [shr_m].
      destruct (E + Zpos k <=? 1024 - 53); [right | left; reflexivity].
      exists p2, (E + Zpos k). split; [reflexivity | ]. split; [lia | ].
      replace (E + Z.pos k - E - Z.pos k) with 0 by lia. rewrite <- Hm1. lia.
  - (* fewer than 53 digits: nothing is shifted out *)
    cbn [shr_m loc_of_shr_record round_nearest_even].
    rewrite shr_fexp_exact by assumption. rewrite Hk. cbn [shr_m].
    subst n. rewrite Z.max_l by lia.
    destruct (E <=? 1024 - 53); [right | left; reflexivity].
    exists M, E. repeat split; try lia.
    replace (E - E - 0) with 0 by lia. rewrite Z.div_1_r. lia.
Qed.

Lemma int_double_small (p : Z) :
  2 <= p <= 100 ->
  exists pm pe, Prim2SF (double_of_int p) = S754_finite false pm pe /\
                -51 <= pe <= -46 /\ Zpos pm = p * 2 ^ (- pe) /\
                2 ^ 52 <= Zpos pm < 2 ^ 53.
Proof.
  intros Hp.
  assert (Hall : forallb int_double_ok (map Z.of_nat (seq 2 99)) = true)
    by (vm_compute; reflexivity).
  rewrite forallb_forall in Hall.
  assert (Hin : In p (map Z.of_nat (seq 2 99))).
  { replace p with (Z.of_nat (Z.to_nat p)) by lia.
    apply in_map, in_seq. lia. }
  specialize (Hall p Hin). unfold int_double_ok in Hall.
  destruct (Prim2SF (double_of_int p)) as [ | | | [ | ] pm pe]; try discriminate.
  repeat (let H := fresh "H" in apply andb_prop in Hall as [Hall H]).
  exists pm, pe. split; [reflexivity | ]. lia.
Qed.

Lemma pos_iter_xO (m d : positive) :
  Zpos (Pos.iter xO m d) = Zpos m * 2 ^ Zpos d.
Proof.
  revert m. induction d as [ | d IH] using Pos.peano_ind; intros m.
  - cbn [Pos.iter]. rewrite Pos2Z.inj_xO. change (2 ^ 1) with 2. lia.
  - rewrite Pos.iter_succ, Pos2Z.inj_xO, IH, Pos2Z.inj_succ, Z.pow_succ_r by lia. lia.
Qed.

Lemma digits2_pos_lower (p : positive) (k : Z) :
  0 <= k -> 2 ^ k <= Zpos p -> k < Zpos (digits2_pos p).
Proof.
  intros Hk Hp. pose proof (digits2_pos_bounds p) as [_ Bhi].
  apply (Z.pow_lt_mono_r_iff 2); lia.
Qed.

Lemma above_ten_spec (x : float) :
  PrimFloat.ltb 10%float x = true ->
  Prim2SF x = S754_infinity false \/
  exists m e, Prim2SF x = S754_finite false m e /\ sf_above_ten m e /\
              Zpos (digits2_pos m) = 53.
Proof.
  rewrite ltb_spec. change (Prim2SF 10%float) with (S754_finite false 5629499534213120 (-49)).
  pose proof (Prim2SF_valid x) as Hv.
  destruct (Prim2SF x) as [s | [ | ] | | [ | ] m e]; unfold SFltb, SFcompare;
    try discriminate.
  - intros _. left. reflexivity.
  - intros Hlt. right. exists m, e. split; [reflexivity | ].
    assert (He : sf_above_ten m e).
    { unfold sf_above_ten.
      destruct (Z.compare_spec (-49) e) as [Heq | Hlt' | Hgt]; try discriminate.
      - right. split; [lia | ].
        apply Pos.compare_lt_iff.
        assert (Hc : PosDef.Pos.compare_cont Eq 5629499534213120 m = Lt)
          by (destruct (PosDef.Pos.compare_cont Eq 5629499534213120 m);
              try discriminate Hlt; reflexivity).
        exact Hc.
      - left. exact Hlt'. }
    split; [exact He | ].
    cbn [valid_binary] in Hv. unfold bounded, canonical_mantissa in Hv.
    apply andb_prop in Hv as [Hc _]. apply Z.eqb_eq in Hc.
    unfold fexp, SpecFloat.emin, prec, emax in Hc.
    unfold sf_above_ten in He. lia.
Qed.

Lemma sf_above_ten_leb (m : positive) (e : Z) :
  sf_above_ten m e ->
  SFleb (S754_finite false 5629499534213120 (-49)) (S754_finite false m e) = true.
Proof.
  unfold sf_above_ten, SFleb, SFcompare. intros [He | [-> Hm]].
  - destruct (Z.compare_spec (-49) e); try lia; reflexivity.
  - apply Pos.compare_lt_iff in Hm. cbn [Z.compare Pos.compare].
    change (PosDef.Pos.compare_cont Eq 5629499534213120 m)
      with (5629499534213120 ?= m)%positive.
    rewrite Hm. reflexivity.
Qed.

Lemma sf_above_ten_ltb (m : positive) (e : Z) :
  sf_above_ten m e ->
  SFltb (S754_finite false m e) (S754_finite false 4722366482869645 (-72)) = false.
Proof.
  unfold sf_above_ten, SFltb, SFcompare. intros He.
  destruct (Z.compare_spec e (-72)); try lia; reflexivity.
Qed.

(** Rounding an integer significand of 53 digits or more. *)
Lemma binary_round_lower (s : bool) (D : positive) (e : Z) :
  53 <= Zpos (digits2_pos D) -> -1021 <= Zpos (digits2_pos D) + e ->
  let n := Zpos (digits2_pos D) - 53 in
  binary_round 53 1024 s D e = S754_infinity s \/
  exists m4 e4, binary_round 53 1024 s D e = S754_finite s m4 e4 /\
                e + n <= e4 /\ Zpos D / 2 ^ n <= Zpos m4 * 2 ^ (e4 - e - n).
Proof.
  intros Hd53 Hd n. unfold binary_round, shl_align.
  rewrite fexp_normal by assumption.
  pose proof (binary_round_aux_lower s D e Hd) as Haux. cbv zeta in Haux.
  rewrite Z.max_r in Haux by lia. fold n in Haux.
  destruct (Zpos (digits2_pos D) + e - 53 - e) as [ | k | k ] eqn:Hk;
    try lia; exact Haux.
Qed.

(** The deviation of a base above 10.0 from [p] times itself: a NaN for an
    infinite base, else infinite or a number above 10.0. *)
Lemma self_deviation_spec (x : float) (p : Z) :
  PrimFloat.ltb 10%float x = true -> 2 <= p <= 100 ->
  let d := SFabs (SF64sub (Prim2SF x) (SF64mul (Prim2SF (double_of_int p)) (Prim2SF x))) in
  (Prim2SF x = S754_infinity false /\ d = S754_nan) \/
  d = S754_infinity false \/
  exists m4 e4, d = S754_finite false m4 e4 /\ sf_above_ten m4 e4.
Proof.
  intros Hx Hp d. subst d.
  destruct (above_ten_spec x Hx) as [Hinf | (m & e & Hxm & He & Hdm)].
  - left. split; [exact Hinf | ]. rewrite Hinf.
    destruct (int_double_small p Hp) as (pm & pe & Hpm & _). rewrite Hpm.
    reflexivity.
  - right.
    assert (Hmul : SF64mul (Prim2SF (double_of_int p)) (Prim2SF x) = S754_infinity false \/
      exists m3 e3 k, SF64mul (Prim2SF (double_of_int p)) (Prim2SF x) = S754_finite false m3 e3
        /\ e3 - e = Zpos k /\ 2 * Zpos m <= Zpos m3 * 2 ^ Zpos k).
    { rewrite Hxm.
      pose proof (digits2_pos_bounds m) as [Mlo Mhi]. rewrite Hdm in Mlo, Mhi.
      change (53 - 1) with 52 in Mlo.
      assert (He' : -49 <= e) by (unfold sf_above_ten in He; lia).
      destruct (int_double_small p Hp) as (pm & pe & Hpm & Hpe & Hpv & Hpr). rewrite Hpm.
      unfold SF64mul, SFmul. cbn [xorb]. change prec with 53. change emax with 1024.
      assert (HK : 2 ^ 46 <= 2 ^ (- pe) <= 2 ^ 51)
        by (split; apply Z.pow_le_mono_r; lia).
      set (K := 2 ^ (- pe)) in *.
      assert (HM : 2 ^ 104 <= Zpos (pm * m) < 2 ^ 106).
      { rewrite Pos2Z.inj_mul.
        change (2 ^ 104) with (2 ^ 52 * 2 ^ 52). change (2 ^ 106) with (2 ^ 53 * 2 ^ 53).
        nia. }
      pose proof (digits2_pos_bounds (pm * m)) as [Dlo Dhi].
      assert (Hd1 : 104 < Zpos (digits2_pos (pm * m))) by (apply digits2_pos_lower; lia).
      assert (Hd2 : Zpos (digits2_pos (pm * m)) - 1 < 106)
        by (apply (Z.pow_lt_mono_r_iff 2); lia).
      set (d := Zpos (digits2_pos (pm * m))) in *.
      destruct (binary_round_aux_lower false (pm * m) (pe + e)) as [Hinf | (m3 & e3 & Heq & He3 & Hm3)];
        [fold d; lia | left; exact Hinf | right].
      fold d in He3, Hm3. rewrite Z.max_r in He3, Hm3 by lia.
      destruct (e3 - e) as [ | k | k ] eqn:Hk; try lia.
      exists m3, e3, k. split; [exact Heq | ]. split; [exact Hk | ].
      set (n := d - 53) in *.
      assert (HN : 0 < 2 ^ n <= 128 * K).
      { split; [apply Z.pow_pos_nonneg; lia | ].
        apply Z.le_trans with (2 ^ 53); [apply Z.pow_le_mono_r; lia | ].
        change (2 ^ 53) with (128 * 2 ^ 46). lia. }
      set (a := e3 - (pe + e) - n) in *.
      assert (Ha : 0 <= a) by lia.
      assert (Hsplit : 2 ^ Zpos k * K = 2 ^ a * 2 ^ n).
      { unfold K. rewrite <- !Z.pow_add_r by lia. f_equal. lia. }
      apply (Z.mul_le_mono_pos_r _ _ K); [lia | ].
      replace (Zpos m3 * 2 ^ Zpos k * K) with (Zpos m3 * 2 ^ a * 2 ^ n)
        by (rewrite <- !Z.mul_assoc, Hsplit; reflexivity).
      apply Z.le_trans with (Zpos (pm * m) / 2 ^ n * 2 ^ n);
        [ | apply Z.mul_le_mono_nonneg_r; lia].
      rewrite Pos2Z.inj_mul, Hpv.
      destruct (Z.eq_dec p 2) as [-> | Hp3].
      - (* the double of the base is exact *)
        assert (HK2 : K = 2 ^ 51).
        { unfold K. f_equal.
          assert (Hc : Prim2SF (double_of_int 2) = S754_finite false 4503599627370496 (-51))
            by reflexivity.
          rewrite Hc in Hpm. injection Hpm as _ <-. reflexivity. }
        assert (Hn : n = 52).
        { assert (d - 1 < 105); [ | lia].
          apply (Z.pow_lt_mono_r_iff 2); [lia | lia | ].
          apply Z.le_lt_trans with (Zpos (pm * m)); [exact Dlo | ].
          rewrite Pos2Z.inj_mul, Hpv, HK2.
          change (2 ^ 105) with (2 * 2 ^ 51 * 2 ^ 53). nia. }
        rewrite Hn, HK2.
        replace (2 * 2 ^ 51 * Zpos m) with (Zpos m * 2 ^ 52)
          by (change (2 ^ 52) with (2 * 2 ^ 51); ring).
        rewrite Z.div_mul by lia. lia.
      - (* what the rounding drops is small against one more base *)
        pose proof (Z.mul_succ_div_gt (p * K * Zpos m) (2 ^ n) (proj1 HN)) as Hq.
        change (2 ^ 52) with 4503599627370496 in Mlo. nia. }
    destruct Hmul as [Hinf | (m3 & e3 & k & Heq & Hk & Hlow)].
    + left. rewrite Hinf, Hxm. reflexivity.
    + rewrite Heq, Hxm. unfold SF64sub, SFsub. change prec with 53. change emax with 1024.
      rewrite Z.min_l by lia. unfold shl_align. rewrite Z.sub_diag. cbn [fst].
      replace (e - e3) with (Zneg k) by lia. cbn [fst cond_Zopp].
      rewrite pos_iter_xO.
      pose proof (digits2_pos_bounds m) as [Mlo Mhi]. rewrite Hdm in Mlo, Mhi.
      change (53 - 1) with 52 in Mlo.
      destruct (Zpos m - Zpos m3 * 2 ^ Zpos k) as [ | D | D ] eqn:HD; try lia.
      cbn [binary_normalize].
      assert (HDm : Zpos m <= Zpos D) by lia.
      assert (HdD : 52 < Zpos (digits2_pos D)) by (apply digits2_pos_lower; lia).
      assert (He' : -49 <= e) by (unfold sf_above_ten in He; lia).
      destruct (binary_round_lower true D e) as [Hinf | (m4 & e4 & Heq4 & He4 & Hm4)];
        [lia | lia | left; rewrite Hinf; reflexivity | right].
      exists m4, e4. rewrite Heq4. split; [reflexivity | ].
      unfold sf_above_ten in *.
      destruct (Z.eq_dec e4 (-49)) as [He49 | Hne]; [right | left; lia].
      split; [exact He49 | ].
      assert (e = -49 /\ Zpos (digits2_pos D) - 53 = 0) as [He49' Hn0] by lia.
      rewrite Hn0 in Hm4. replace (e4 - e - 0) with 0 in Hm4 by lia.
      rewrite Z.div_1_r, Z.mul_1_r in Hm4. lia.
Qed.

Lemma self_not_within_tolerance (x : float) (p : Z) :
  PrimFloat.ltb 10%float x = true -> 2 <= p <= 100 ->
  within_tolerance x (PrimFloat.mul (double_of_int p) x) = false.
Proof.
  intros Hx Hp. unfold within_tolerance.
  rewrite ltb_spec, abs_spec, sub_spec, mul_spec.
  change (Prim2SF tolerance) with (S754_finite false 4722366482869645 (-72)).
  destruct (self_deviation_spec x p Hx Hp) as [[_ ->] | [-> | (m4 & e4 & -> & He4)]];
    try reflexivity.
  apply sf_above_ten_ltb. exact He4.
Qed.

(** For a finite base above 10.0 the deviation is at least 10.0. *)
Lemma self_deviation_above_ten (x : float) (p : Z) :
  PrimFloat.ltb 10%float x = true -> PrimFloat.is_finite x = true ->
  2 <= p <= 100 ->
  PrimFloat.leb 10%float
    (PrimFloat.abs (PrimFloat.sub x (PrimFloat.mul (double_of_int p) x))) = true.
Proof.
  intros Hx Hfin Hp.
  rewrite leb_spec, abs_spec, sub_spec, mul_spec.
  change (Prim2SF 10%float) with (S754_finite false 5629499534213120 (-49)).
  destruct (self_deviation_spec x p Hx Hp) as [[Hinf _] | [-> | (m4 & e4 & -> & He4)]].
  - exfalso. revert Hfin.
    unfold PrimFloat.is_finite, PrimFloat.is_nan, PrimFloat.is_infinity.
    rewrite !eqb_spec, abs_spec, Hinf. discriminate.
  - reflexivity.
  - apply sf_above_ten_leb. exact He4.
Qed.

(** The comparison of two numbers, read in the other direction. *)
Lemma SFcompare_antisym (x y : spec_float) :
  SFcompare y x = option_map CompOpp (SFcompare x y).
Proof.
  destruct x as [sx | sx | | sx mx ex], y as [sy | sy | | sy my ey];
    try destruct sx; try destruct sy; try reflexivity;
    cbn [SFcompare option_map]; f_equal;
    rewrite (Z.compare_antisym ex ey);
    destruct (ex ?= ey); cbn [CompOpp]; try reflexivity.
  - f_equal. symmetry. exact (Pos.compare_cont_antisym mx my Eq).
  - symmetry. exact (Pos.compare_cont_antisym mx my Eq).
Qed.

Lemma ltb_leb_false (x y : float) :
  PrimFloat.ltb x y = true -> PrimFloat.leb y x = false.
Proof.
  rewrite ltb_spec, leb_spec. unfold SFltb, SFleb.
  rewrite (SFcompare_antisym (Prim2SF x) (Prim2SF y)).
  destruct (SFcompare (Prim2SF x) (Prim2SF y)) as [[ | | ] | ];
    cbn; congruence.
Qed.

Lemma leb_ltb_false (x y : float) :
  PrimFloat.leb x y = true -> PrimFloat.ltb y x = false.
Proof.
  rewrite ltb_spec, leb_spec. unfold SFltb, SFleb.
  rewrite (SFcompare_antisym (Prim2SF x) (Prim2SF y)).
  destruct (SFcompare (Prim2SF x) (Prim2SF y)) as [[ | | ] | ];
    cbn; congruence.
Qed.

(** A frequency that is not [<= 10.0] is above 10.0, or it is a NaN. *)
Lemma not_leb_ten (x : float) :
  PrimFloat.leb x 10%float = false ->
  PrimFloat.ltb 10%float x = true \/ Prim2SF x = S754_nan.
Proof.
  rewrite ltb_spec, leb_spec. unfold SFltb, SFleb.
  rewrite (SFcompare_antisym (Prim2SF x) (Prim2SF 10%float)).
  change (Prim2SF 10%float) with (S754_finite false 5629499534213120 (-49)).
  destruct (Prim2SF x) as [sx | [ | ] | | [ | ] mx ex] eqn:Hx;
    try (right; reflexivity); cbn [SFcompare option_map CompOpp];
    try discriminate; try (left; reflexivity).
  destruct (ex ?= -49); cbn [CompOpp]; try discriminate; try (left; reflexivity).
  destruct (Pos.compare_cont Eq mx 5629499534213120); cbn [CompOpp];
    try discriminate. left. reflexivity.
Qed.

(** Nothing is within the tolerance of a multiple of a NaN. *)
Lemma nan_not_within_tolerance (a q x : float) :
  Prim2SF x = S754_nan -> within_tolerance a (PrimFloat.mul q x) = false.
Proof.
  intros Hx. unfold within_tolerance.
  rewrite ltb_spec, abs_spec, sub_spec, mul_spec, Hx.
  assert (Hmul : SF64mul (Prim2SF q) S754_nan = S754_nan)
    by (destruct (Prim2SF q); reflexivity).
  rewrite Hmul.
  assert (Hsub : SF64sub (Prim2SF a) S754_nan = S754_nan)
    by (destruct (Prim2SF a); reflexivity).
  rewrite Hsub. reflexivity.
Qed.

End Binary64.

(** ** Loops *)

Section ForFirst.

Context {A : Type}.
Implicit Types (body : Z -> option A) (r : A).

Lemma for_first_some n : forall k body r,
  for_first n k body = Some r ->
  exists v, k <= v < k + Z.of_nat n /\ body v = Some r /\
            forall u, k <= u < v -> body u = None.
Proof.
  induction n as [ | n IH]; intros k body r H; cbn [for_first] in H.
  - discriminate.
  - destruct (body k) as [r' | ] eqn:Hk.
    + exists k. split; [lia | ]. split; [congruence | ]. intros u Hu. lia.
    + destruct (IH _ _ _ H) as (v & Hv & Hbody & Hbefore).
      exists v. split; [lia | ]. split; [exact Hbody | ].
      intros u Hu. destruct (Z.eq_dec u k) as [-> | Hne]; [exact Hk | ].
      apply Hbefore. lia.
Qed.

Lemma for_first_none n : forall k body,
  for_first n k body = None ->
  forall v, k <= v < k + Z.of_nat n -> body v = None.
Proof.
  induction n as [ | n IH]; intros k body H v Hv; cbn [for_first] in H.
  - lia.
  - destruct (body k) as [r' | ] eqn:Hk; [discriminate | ].
    destruct (Z.eq_dec v k) as [-> | Hne]; [exact Hk | ].
    apply (IH _ _ H). lia.
Qed.

Lemma for_first_ext n : forall k body body',
  (forall v, k <= v < k + Z.of_nat n -> body v = body' v) ->
  for_first n k body = for_first n k body'.
Proof.
  induction n as [ | n IH]; intros k body body' Hext; cbn [for_first].
  - reflexivity.
  - rewrite <- (Hext k) by lia. destruct (body k); [reflexivity | ].
    apply IH. intros v Hv. apply Hext. lia.
Qed.

Lemma for_range_some lo hi body r :
  for_range lo hi body = Some r ->
  exists v, lo <= v <= hi /\ body v = Some r /\
            forall u, lo <= u < v -> body u = None.
Proof.
  unfold for_range. intros H.
  destruct (for_first_some _ _ _ _ H) as (v & Hv & Hbody & Hbefore).
  exists v. split; [lia | ]. split; assumption.
Qed.

Lemma for_range_none lo hi body :
  for_range lo hi body = None ->
  forall v, lo <= v <= hi -> body v = None.
Proof.
  unfold for_range. intros H v Hv. apply (for_first_none _ _ _ H). lia.
Qed.

Lemma for_range_ext lo hi body body' :
  (forall v, lo <= v <= hi -> body v = body' v) ->
  for_range lo hi body = for_range lo hi body'.
Proof.
  unfold for_range. intros Hext. apply for_first_ext.
  intros v Hv. apply Hext. lia.
Qed.

(** The first iteration that exits decides the loop. *)
Lemma for_range_first lo hi body v r :
  lo <= v <= hi -> body v = Some r ->
  (forall u, lo <= u < v -> body u = None) ->
  for_range lo hi body = Some r.
Proof.
  intros Hv Hbody Hbefore.
  destruct (for_range lo hi body) as [r' | ] eqn:H.
  - destruct (for_range_some _ _ _ _ H) as (v' & Hv' & Hbody' & Hbefore').
    destruct (Z.lt_trichotomy v v') as [Hlt | [-> | Hgt]].
    + rewrite Hbefore' in Hbody by lia. discriminate.
    + congruence.
    + rewrite Hbefore in Hbody' by lia. discriminate.
  - rewrite (for_range_none _ _ _ H v Hv) in Hbody. discriminate.
Qed.

End ForFirst.

(** ** The search of inferScaleSize *)

Lemma accept_true_iff frequency period i j target :
  accept frequency period i j target = true <->
  within_tolerance (load frequency j) target = true /\
  within_tolerance (load frequency (j + 1))
    (PrimFloat.mul (double_of_int period) (load frequency (i + 1))) = true.
Proof. unfold accept. apply andb_true_iff. Qed.

Lemma search_j_some frequency period i r :
  search_j frequency period i = Some r ->
  exists j, r = (period, i, j) /\ i <= j <= 126 /\
    accept frequency period i j
      (PrimFloat.mul (double_of_int period) (load frequency i)) = true /\
    forall j', i <= j' < j ->
      accept frequency period i j'
        (PrimFloat.mul (double_of_int period) (load frequency i)) = false.
Proof.
  unfold search_j. intros H.
  destruct (for_range_some _ _ _ _ H) as (j & Hj & Hbody & Hbefore).
  exists j. destruct (accept frequency period i j _) eqn:Hacc; [ | discriminate].
  split; [congruence | ]. split; [exact Hj | ]. split; [reflexivity | ].
  intros j' Hj'. specialize (Hbefore j' Hj').
  destruct (accept frequency period i j' _); [discriminate | reflexivity].
Qed.

Lemma search_j_none frequency period i :
  search_j frequency period i = None ->
  forall j, i <= j <= 126 ->
    accept frequency period i j
      (PrimFloat.mul (double_of_int period) (load frequency i)) = false.
Proof.
  unfold search_j. intros H j Hj.
  pose proof (for_range_none _ _ _ H j Hj) as Hbody. cbv beta in Hbody.
  destruct (accept frequency period i j _); [discriminate | reflexivity].
Qed.

(** A base is never its own match: the search never exits with [j = i]. *)
Lemma accept_self frequency period i :
  2 <= period <= 100 ->
  PrimFloat.ltb 10%float (load frequency i) = true ->
  accept frequency period i i
    (PrimFloat.mul (double_of_int period) (load frequency i)) = false.
Proof.
  intros Hp Hbase. unfold accept.
  rewrite Binary64.self_not_within_tolerance by assumption. reflexivity.
Qed.

Lemma candidate_accept frequency period i j :
  candidate frequency period i j <->
  2 <= period <= 100 /\ 0 <= i <= 126 /\
  PrimFloat.ltb 10%float (load frequency i) = true /\ i <= j <= 126 /\
  accept frequency period i j
    (PrimFloat.mul (double_of_int period) (load frequency i)) = true.
Proof.
  unfold candidate. rewrite accept_true_iff. split.
  - intros (Hp & Hi & Hbase & Hj & H1 & H2).
    destruct (Binary64.not_leb_ten _ Hbase) as [Habove | Hnan]; [tauto | ].
    rewrite (Binary64.nan_not_within_tolerance _ _ _ Hnan) in H1. discriminate.
  - intros (Hp & Hi & Hbase & Hj & H1 & H2).
    apply Binary64.ltb_leb_false in Hbase. tauto.
Qed.

(** What the loops return is the first candidate of the search order. *)
Lemma search_some_first frequency period i j :
  search frequency = Some (period, i, j) ->
  first_acceptance frequency period i j.
Proof.
  unfold search. intros H.
  destruct (for_range_some _ _ _ _ H) as (p & Hp & Hsi & Hpbefore).
  unfold search_i in Hsi.
  destruct (for_range_some _ _ _ _ Hsi) as (i0 & Hi0 & Hbody & Hibefore).
  destruct (PrimFloat.ltb 10%float (load frequency i0)) eqn:Hbase; [ | discriminate].
  destruct (search_j_some _ _ _ _ Hbody) as (j0 & Hr & Hj0 & Hacc & Hjbefore).
  injection Hr as -> -> ->.
  split.
  - apply candidate_accept. repeat split; try lia; assumption.
  - intros p' i' j' Hc Hprec. apply candidate_accept in Hc.
    destruct Hc as (Hp' & Hi' & Hbase' & Hj' & Hacc').
    unfold precedes in Hprec.
    destruct Hprec as [Hlt | [-> [Hlt | [-> Hlt]]]].
    + specialize (Hpbefore p' ltac:(lia)). unfold search_i in Hpbefore.
      pose proof (for_range_none _ _ _ Hpbefore i' Hi') as Hnone. cbv beta in Hnone.
      rewrite Hbase' in Hnone.
      rewrite (search_j_none _ _ _ Hnone j' Hj') in Hacc'. discriminate.
    + specialize (Hibefore i' ltac:(lia)). cbv beta in Hibefore.
      rewrite Hbase' in Hibefore.
      rewrite (search_j_none _ _ _ Hibefore j' Hj') in Hacc'. discriminate.
    + rewrite (Hjbefore j' ltac:(lia)) in Hacc'. discriminate.
Qed.

Lemma search_none_no_candidate frequency :
  search frequency = None ->
  forall period i j, ~ candidate frequency period i j.
Proof.
  unfold search. intros H p i j Hc. apply candidate_accept in Hc.
  destruct Hc as (Hp & Hi & Hbase & Hj & Hacc).
  pose proof (for_range_none _ _ _ H p Hp) as Hsi. unfold search_i in Hsi.
  pose proof (for_range_none _ _ _ Hsi i Hi) as Hnone. cbv beta in Hnone.
  rewrite Hbase in Hnone.
  rewrite (search_j_none _ _ _ Hnone j Hj) in Hacc. discriminate.
Qed.

Lemma first_acceptance_unique frequency p i j p' i' j' :
  first_acceptance frequency p i j -> first_acceptance frequency p' i' j' ->
  (p, i, j) = (p', i', j').
Proof.
  intros [Hc Hmin] [Hc' Hmin'].
  specialize (Hmin _ _ _ Hc'). specialize (Hmin' _ _ _ Hc).
  unfold precedes in Hmin, Hmin'.
  assert (p = p' /\ i = i' /\ j = j') as (-> & -> & ->) by lia.
  reflexivity.
Qed.

Lemma first_acceptance_search frequency period i j :
  first_acceptance frequency period i j ->
  search frequency = Some (period, i, j).
Proof.
  intros Hfirst.
  destruct (search frequency) as [[[p' i'] j'] | ] eqn:H.
  - apply search_some_first in H.
    rewrite (first_acceptance_unique _ _ _ _ _ _ _ Hfirst H). reflexivity.
  - destruct Hfirst as [Hc _].
    destruct (search_none_no_candidate _ H _ _ _ Hc).
Qed.

(** The exit of the loops is never at [j = i]. *)
Lemma search_some_step frequency period i j :
  search frequency = Some (period, i, j) ->
  2 <= period <= 100 /\ 0 <= i /\ i < j /\ j <= 126.
Proof.
  intros H. apply search_some_first in H. destruct H as [Hc _].
  apply candidate_accept in Hc. destruct Hc as (Hp & Hi & Hbase & Hj & Hacc).
  destruct (Z.eq_dec j i) as [-> | Hne]; [ | lia].
  rewrite accept_self in Hacc by assumption. discriminate.
Qed.

Lemma inferScaleSize_some frequency period i j :
  search frequency = Some (period, i, j) ->
  inferScaleSize frequency = (j - i, period).
Proof.
  intros H. unfold inferScaleSize. rewrite H.
  apply search_some_step in H.
  destruct (Z.eqb_spec (j - i) 0); [lia | reflexivity].
Qed.

Lemma inferScaleSize_none frequency :
  search frequency = None -> inferScaleSize frequency = (-1, -1).
Proof. intros H. unfold inferScaleSize. rewrite H. reflexivity. Qed.

(** The two shapes of a result. *)
Lemma inferScaleSize_shape frequency :
  inferScaleSize frequency = (-1, -1) \/
  exists s p, inferScaleSize frequency = (s, p) /\ 1 <= s <= 126 /\ 2 <= p <= 100.
Proof.
  destruct (search frequency) as [[[p i] j] | ] eqn:H.
  - right. exists (j - i), p. split; [apply inferScaleSize_some; exact H | ].
    apply search_some_step in H. lia.
  - left. apply inferScaleSize_none. exact H.
Qed.

(** The search reads the first 128 entries of the array only. *)
Lemma search_same_samples f g :
  same_samples f g -> search f = search g.
Proof.
  intros Hfg. unfold search. apply for_range_ext. intros p Hp.
  unfold search_i. apply for_range_ext. intros i Hi. cbv beta.
  rewrite (Hfg i) by lia.
  destruct (PrimFloat.ltb 10%float (load g i)); [ | reflexivity].
  unfold search_j. cbv zeta. rewrite (Hfg i) by lia.
  apply for_range_ext. intros j Hj. cbv beta.
  unfold accept. rewrite (Hfg j), (Hfg (j + 1)), (Hfg (i + 1)) by lia.
  reflexivity.
Qed.

Lemma inferScaleSize_same_samples f g :
  same_samples f g -> inferScaleSize f = inferScaleSize g.
Proof.
  intros Hfg. unfold inferScaleSize. rewrite (search_same_samples f g Hfg).
  reflexivity.
Qed.

Lemma nth_firstn_below (n : nat) : forall (f : list float) (k : nat) d,
  (k < n)%nat -> nth k (firstn n f) d = nth k f d.
Proof.
  induction n as [ | n IH]; intros f k d Hk; [lia | ].
  destruct f as [ | x f]; [reflexivity | ].
  destruct k as [ | k]; [reflexivity | ].
  cbn [firstn nth]. apply IH. lia.
Qed.

Lemma same_samples_firstn f g :
  firstn 128 f = firstn 128 g -> same_samples f g.
Proof.
  intros H i Hi. unfold load.
  rewrite <- (nth_firstn_below 128 f) by lia.
  rewrite <- (nth_firstn_below 128 g) by lia.
  rewrite H. reflexivity.
Qed.

(** ** Writing the array *)

Lemma length_store_nat f : forall i v,
  List.length (store_nat f i v) = List.length f.
Proof.
  induction f as [ | x f IH]; intros [ | i] v; cbn [store_nat List.length];
    try reflexivity.
  rewrite IH. reflexivity.
Qed.

Lemma nth_store_nat_same f : forall i v d,
  (i < List.length f)%nat -> nth i (store_nat f i v) d = v.
Proof.
  induction f as [ | x f IH]; intros [ | i] v d Hi; cbn [List.length] in Hi;
    try lia; cbn [store_nat nth]; [reflexivity | ].
  apply IH. lia.
Qed.

Lemma nth_store_nat_other f : forall i k v d,
  k <> i -> nth k (store_nat f i v) d = nth k f d.
Proof.
  induction f as [ | x f IH]; intros [ | i] [ | k] v d Hne; cbn [store_nat nth];
    try reflexivity; try congruence.
  apply IH. congruence.
Qed.

Lemma firstn_store_nat f : forall n i v,
  (n <= i)%nat -> firstn n (store_nat f i v) = firstn n f.
Proof.
  induction f as [ | x f IH]; intros [ | n] [ | i] v Hn; cbn [store_nat firstn];
    try reflexivity; try lia.
  rewrite IH by lia. reflexivity.
Qed.

Lemma length_store f i v : List.length (store f i v) = List.length f.
Proof. apply length_store_nat. Qed.

Lemma load_store_same f i v :
  0 <= i < Z.of_nat (List.length f) -> load (store f i v) i = v.
Proof. intros Hi. apply nth_store_nat_same. lia. Qed.

Lemma load_store_other f i k v :
  0 <= i -> 0 <= k -> k <> i -> load (store f i v) k = load f k.
Proof. intros Hi Hk Hne. apply nth_store_nat_other. lia. Qed.

Section ExtendLoop.

Variable rhs : list float -> Z -> float.

Lemma length_extend_loop n : forall i f,
  List.length (extend_loop n i rhs f) = List.length f.
Proof.
  induction n as [ | n IH]; intros i f; cbn [extend_loop]; [reflexivity | ].
  rewrite IH. apply length_store.
Qed.

Lemma firstn_extend_loop n : forall i f,
  128 <= i -> firstn 128 (extend_loop n i rhs f) = firstn 128 f.
Proof.
  induction n as [ | n IH]; intros i f Hi; cbn [extend_loop]; [reflexivity | ].
  rewrite IH by lia. apply firstn_store_nat. lia.
Qed.

(** The loop leaves the entries below its start as they are. *)
Lemma load_extend_loop_below n : forall i f k,
  0 <= k < i -> load (extend_loop n i rhs f) k = load f k.
Proof.
  induction n as [ | n IH]; intros i f k Hk; cbn [extend_loop]; [reflexivity | ].
  rewrite IH by lia. apply load_store_other; lia.
Qed.

(** The right-hand side at [k] reads entries below [k] only. *)
Hypothesis rhs_reads_below : forall f g k,
  128 <= k -> (forall u, 0 <= u < k -> load f u = load g u) ->
  rhs f k = rhs g k.

(** Every entry the loop writes keeps the value of its assignment. *)
Lemma load_extend_loop_written n : forall i f k,
  128 <= i -> i + Z.of_nat n <= Z.of_nat (List.length f) ->
  i <= k < i + Z.of_nat n ->
  load (extend_loop n i rhs f) k = rhs (extend_loop n i rhs f) k.
Proof.
  induction n as [ | n IH]; intros i f k Hi Hcap Hk; [lia | ].
  cbn [extend_loop].
  destruct (Z.eq_dec k i) as [-> | Hne].
  - rewrite load_extend_loop_below by lia.
    rewrite load_store_same by lia.
    apply rhs_reads_below; [lia | ].
    intros u Hu. rewrite load_extend_loop_below by lia.
    rewrite load_store_other by lia. reflexivity.
  - apply IH; [lia | rewrite length_store; lia | lia].
Qed.

End ExtendLoop.

(** The assertion of extendFrequencies holds on every result of
    inferScaleSize. *)
Lemma extendFrequencies_returns frequency length :
  exists table, extendFrequencies frequency length = Some table.
Proof.
  unfold extendFrequencies.
  destruct (inferScaleSize_shape frequency) as [-> | (s & p & -> & Hs & Hp)].
  - cbn. eexists. reflexivity.
  - destruct (Z.leb_spec s 128); [ | lia].
    destruct (0 <? s); eexists; reflexivity.
Qed.

Lemma extendFrequencies_found frequency length s p :
  inferScaleSize frequency = (s, p) -> found (s, p) ->
  1 <= s <= 126 /\ 2 <= p <= 100 /\
  extendFrequencies frequency length =
    Some (extend_loop (Z.to_nat (length - 128)) 128
            (fun f i => PrimFloat.mul (double_of_int p) (load f (i - s)))
            frequency).
Proof.
  intros Hinfer Hfound. unfold extendFrequencies. rewrite Hinfer.
  destruct (inferScaleSize_shape frequency) as [Hs | (s' & p' & Heq & Hs & Hp)].
  - exfalso. apply Hfound. congruence.
  - assert (s' = s /\ p' = p) as [-> ->] by (split; congruence).
    split; [exact Hs | ]. split; [exact Hp | ].
    destruct (Z.leb_spec s 128); [ | lia].
    destruct (Z.ltb_spec 0 s); [reflexivity | lia].
Qed.

Lemma extendFrequencies_not_found frequency length :
  inferScaleSize frequency = (-1, -1) ->
  extendFrequencies frequency length =
    Some (extend_loop (Z.to_nat (length - 128)) 128 (fun f _ => load f 127)
            frequency).
Proof. intros Hinfer. unfold extendFrequencies. rewrite Hinfer. reflexivity. Qed.

(** C's [==] on two copies of a value that is not a NaN. *)
Lemma eqb_same (x y : float) :
  x = y -> PrimFloat.is_nan x = false -> PrimFloat.eqb x y = true.
Proof.
  intros <- Hnan. unfold PrimFloat.is_nan in Hnan.
  destruct (PrimFloat.eqb x x); [reflexivity | discriminate].
Qed.

(** ** Tables that repeat at the octave *)

Lemma within_tolerance_refl (y : float) :
  PrimFloat.is_finite y = true -> within_tolerance y y = true.
Proof.
  unfold PrimFloat.is_finite, PrimFloat.is_nan, PrimFloat.is_infinity.
  rewrite !eqb_spec, abs_spec.
  change (Prim2SF infinity) with (S754_infinity false).
  unfold within_tolerance. rewrite ltb_spec, abs_spec, sub_spec.
  change (Prim2SF tolerance) with (S754_finite false 4722366482869645 (-72)).
  destruct (Prim2SF y) as [[ | ] | [ | ] | | s m e]; try discriminate;
    try reflexivity.
  intros _. unfold SF64sub, SFsub, shl_align.
  rewrite Z.min_id, Z.sub_diag. cbn [fst]. reflexivity.
Qed.

Lemma octave_12b_sound frequency :
  octave_12b frequency = true -> octave_12 frequency.
Proof.
  unfold octave_12b. intros H.
  apply andb_prop in H as [H Hsteps]. apply andb_prop in H as [H Hdouble].
  apply andb_prop in H as [Hlen Hfin].
  rewrite forallb_forall in Hfin, Hdouble, Hsteps.
  constructor.
  - apply Nat.eqb_eq. exact Hlen.
  - intros i Hi. specialize (Hfin (Z.to_nat i)).
    rewrite Z2Nat.id in Hfin by lia. apply Hfin, in_seq. lia.
  - intros i Hi. specialize (Hdouble (Z.to_nat i)).
    rewrite Z2Nat.id in Hdouble by lia. apply Leibniz.eqb_spec.
    apply Hdouble, in_seq. lia.
  - intros i j Hi Hj. specialize (Hsteps (Z.to_nat j) ltac:(apply in_seq; lia)).
    rewrite forallb_forall in Hsteps.
    specialize (Hsteps (Z.to_nat i) ltac:(apply in_seq; lia)).
    rewrite !Z2Nat.id in Hsteps by lia.
    apply negb_true_iff. exact Hsteps.
Qed.

(** From a base with a full period above it, the inner loop exits at the
    octave. *)
Lemma search_j_octave frequency i :
  octave_12 frequency -> 0 <= i <= 114 ->
  search_j frequency 2 i = Some (2, i, i + 12).
Proof.
  intros Hoct Hi. unfold search_j. cbv zeta.
  rewrite <- (octave_double _ Hoct i) by lia.
  apply for_range_first with (v := i + 12); [lia | | ].
  - unfold accept.
    rewrite within_tolerance_refl by (apply (octave_finite _ Hoct); lia).
    rewrite <- (octave_double _ Hoct (i + 1)) by lia.
    replace (i + 1 + 12) with (i + 12 + 1) by ring.
    rewrite within_tolerance_refl by (apply (octave_finite _ Hoct); lia).
    reflexivity.
  - intros j Hj. unfold accept.
    rewrite (octave_steps _ Hoct j (i + 12)) by lia. reflexivity.
Qed.

Lemma search_octave frequency i :
  octave_12 frequency -> 0 <= i <= 114 ->
  PrimFloat.ltb 10%float (load frequency i) = true ->
  exists i0, 0 <= i0 <= i /\ search frequency = Some (2, i0, i0 + 12).
Proof.
  intros Hoct Hi Hbase.
  assert (Hsi : exists i0, 0 <= i0 <= i /\ search_i frequency 2 = Some (2, i0, i0 + 12)).
  { unfold search_i.
    destruct (for_range 0 126 _) as [r | ] eqn:H.
    - destruct (for_range_some _ _ _ _ H) as (i0 & Hi0 & Hbody & Hbefore).
      cbv beta in Hbody.
      destruct (Z_le_gt_dec i0 i) as [Hle | Hgt].
      + exists i0. split; [lia | ].
        destruct (PrimFloat.ltb 10%float (load frequency i0)); [ | discriminate].
        rewrite search_j_octave in Hbody by (assumption || lia). congruence.
      + specialize (Hbefore i ltac:(lia)). cbv beta in Hbefore.
        rewrite Hbase, search_j_octave in Hbefore by (assumption || lia).
        discriminate.
    - pose proof (for_range_none _ _ _ H i ltac:(lia)) as Hnone. cbv beta in Hnone.
      rewrite Hbase, search_j_octave in Hnone by (assumption || lia).
      discriminate. }
  destruct Hsi as (i0 & Hi0 & Hsi). exists i0. split; [exact Hi0 | ].
  unfold search. apply for_range_first with (v := 2); [lia | exact Hsi | ].
  intros u Hu. lia.
Qed.

(** ** The model on the test cases of the source *)

Example test_inferPeriod_19TET : inferScaleSize table_19TET = (19, 2).
Proof. vm_compute. reflexivity. Qed.

Example test_inferPeriod_BohlenPierce :
  inferScaleSize table_BohlenPierce = (13, 3).
Proof. vm_compute. reflexivity. Qed.

Example test_inferPeriod_p4 : inferScaleSize table_p4 = (4, 7).
Proof. vm_compute. reflexivity. Qed.

Example test_inferPeriod_bagpipe4 : inferScaleSize table_bagpipe4 = (-1, -1).
Proof. vm_compute. reflexivity. Qed.

Example test_extendFrequencies_bagpipe4 :
  exists table, extendFrequencies (array_256 table_bagpipe4) 256 = Some table /\
    load table 128 = load table 127 /\ load table 255 = load table 127.
Proof.
  rewrite extendFrequencies_not_found.
  - eexists. split; [reflexivity | ]. vm_compute. split; reflexivity.
  - rewrite <- test_inferPeriod_bagpipe4.
    apply inferScaleSize_same_samples, same_samples_firstn. reflexivity.
Qed.

Example inferPeriod_table_12TET : inferScaleSize table_12TET = (12, 2).
Proof. vm_compute. reflexivity. Qed.

(** ** The claims of the specification *)

(** C1. inferScaleSize returns the result of the first acceptance in the
    search order (period from 2 to 100, then base [i] from 0 to 126 among
    the entries above 10.0 Hz, then match [j] from [i] to 126): the scale
    size [j - i] with the period of that acceptance; when no triple is
    accepted it returns -1 for both.  One of the two cases always holds. *)
Theorem inferScaleSize_first_acceptance (frequency : list float)
    (Hsamples : (128 <= List.length frequency)%nat) :
  (forall period i j, first_acceptance frequency period i j ->
     inferScaleSize frequency = (j - i, period)) /\
  ((forall period i j, ~ candidate frequency period i j) ->
     inferScaleSize frequency = (-1, -1)) /\
  ((exists period i j, first_acceptance frequency period i j) \/
   (forall period i j, ~ candidate frequency period i j)).
Proof.
  split; [ | split].
  - intros p i j Hfirst. apply inferScaleSize_some, first_acceptance_search.
    exact Hfirst.
  - intros Hnone. destruct (search frequency) as [[[p i] j] | ] eqn:H.
    + apply search_some_first in H. destruct H as [Hc _].
      destruct (Hnone _ _ _ Hc).
    + apply inferScaleSize_none. exact H.
  - destruct (search frequency) as [[[p i] j] | ] eqn:H.
    + left. exists p, i, j. apply search_some_first. exact H.
    + right. apply search_none_no_candidate. exact H.
Qed.

Lemma inferScaleSize_first_acceptance_witness :
  (128 <= List.length table_19TET)%nat /\
  ((forall period i j, first_acceptance table_19TET period i j ->
      inferScaleSize table_19TET = (j - i, period)) /\
   ((forall period i j, ~ candidate table_19TET period i j) ->
      inferScaleSize table_19TET = (-1, -1)) /\
   ((exists period i j, first_acceptance table_19TET period i j) \/
    (forall period i j, ~ candidate table_19TET period i j))).
Proof.
  assert (Hlen : (128 <= List.length table_19TET)%nat) by (vm_compute; lia).
  split; [exact Hlen | ].
  exact (inferScaleSize_first_acceptance table_19TET Hlen).
Defined.

(** C2. When inference finds (s, p), extendFrequencies returns the array
    with its size and its 128 samples kept, and every entry that it writes
    satisfies the exact recurrence table[k] = p * table[k - s], for every k
    from 128 to the requested length, whatever that length: the recurrence
    reads extended entries once k - s reaches 128.  The two sides are the
    same double, so C's [==] holds wherever the entry is not a NaN. *)
Theorem extendFrequencies_recurrence (frequency : list float) (length s p : Z)
    (Hlength : 128 <= length <= Z.of_nat (List.length frequency))
    (Hinfer : inferScaleSize frequency = (s, p))
    (Hfound : found (s, p)) :
  exists table,
    extendFrequencies frequency length = Some table /\
    List.length table = List.length frequency /\
    firstn 128 table = firstn 128 frequency /\
    forall k, 128 <= k < length ->
      load table k = PrimFloat.mul (double_of_int p) (load table (k - s)) /\
      (PrimFloat.is_nan (load table k) = false ->
       PrimFloat.eqb (load table k)
         (PrimFloat.mul (double_of_int p) (load table (k - s))) = true).
Proof.
  destruct (extendFrequencies_found frequency length s p Hinfer Hfound)
    as (Hs & Hp & Hext).
  eexists. split; [exact Hext | ].
  split; [apply length_extend_loop | ].
  split; [apply firstn_extend_loop; lia | ].
  intros k Hk.
  assert (Heq : load (extend_loop (Z.to_nat (length - 128)) 128
                        (fun f i => PrimFloat.mul (double_of_int p) (load f (i - s)))
                        frequency) k =
                PrimFloat.mul (double_of_int p)
                  (load (extend_loop (Z.to_nat (length - 128)) 128
                           (fun f i => PrimFloat.mul (double_of_int p) (load f (i - s)))
                           frequency) (k - s))).
  { apply (load_extend_loop_written
             (fun f i => PrimFloat.mul (double_of_int p) (load f (i - s)))); try lia.
    intros f g u Hu Hfg. cbv beta. rewrite (Hfg (u - s)) by lia. reflexivity. }
  split; [exact Heq | ]. apply eqb_same. exact Heq.
Qed.

Lemma extendFrequencies_recurrence_witness :
  exists table,
    extendFrequencies (array_256 table_19TET) 256 = Some table /\
    List.length table = List.length (array_256 table_19TET) /\
    firstn 128 table = firstn 128 (array_256 table_19TET) /\
    forall k, 128 <= k < 256 ->
      load table k = PrimFloat.mul (double_of_int 2) (load table (k - 19)) /\
      (PrimFloat.is_nan (load table k) = false ->
       PrimFloat.eqb (load table k)
         (PrimFloat.mul (double_of_int 2) (load table (k - 19))) = true).
Proof.
  apply (extendFrequencies_recurrence (array_256 table_19TET) 256 19 2).
  - vm_compute. split; discriminate.
  - vm_compute. reflexivity.
  - unfold found. discriminate.
Defined.

(** C3. When inference finds nothing, every entry that extendFrequencies
    writes is the flat continuation table[k] = table[127], for every k from
    128 to the requested length; entry 127 is the one of the input. *)
Theorem extendFrequencies_flat (frequency : list float) (length : Z)
    (Hlength : 128 <= length <= Z.of_nat (List.length frequency))
    (Hinfer : inferScaleSize frequency = (-1, -1)) :
  exists table,
    extendFrequencies frequency length = Some table /\
    load table 127 = load frequency 127 /\
    forall k, 128 <= k < length -> load table k = load table 127.
Proof.
  eexists. split; [apply extendFrequencies_not_found; exact Hinfer | ].
  split.
  - apply load_extend_loop_below. lia.
  - intros k Hk.
    apply (load_extend_loop_written (fun f _ => load f 127)); try lia.
    intros f g u Hu Hfg. apply Hfg. lia.
Qed.

Lemma extendFrequencies_flat_witness :
  exists table,
    extendFrequencies (array_256 table_12TET_low) 256 = Some table /\
    load table 127 = load (array_256 table_12TET_low) 127 /\
    forall k, 128 <= k < 256 -> load table k = load table 127.
Proof.
  apply (extendFrequencies_flat (array_256 table_12TET_low) 256).
  - vm_compute. split; discriminate.
  - vm_compute. reflexivity.
Defined.

(** C4. extendFrequencies leaves entries 0 to 127 exactly as they are in
    the input, for every requested length from 128 on; the array keeps its
    size. *)
Theorem extendFrequencies_keeps_samples (frequency : list float) (length : Z)
    (Hlength : 128 <= length <= Z.of_nat (List.length frequency)) :
  exists table,
    extendFrequencies frequency length = Some table /\
    firstn 128 table = firstn 128 frequency /\
    List.length table = List.length frequency.
Proof.
  destruct (inferScaleSize_shape frequency) as [Heq | (s & p & Heq & Hs & Hp)].
  - rewrite (extendFrequencies_not_found _ length Heq).
    eexists. split; [reflexivity | ].
    split; [apply firstn_extend_loop; lia | apply length_extend_loop].
  - destruct (extendFrequencies_found frequency length s p Heq) as (_ & _ & Hext).
    { unfold found. intros H. injection H as H _. lia. }
    rewrite Hext. eexists. split; [reflexivity | ].
    split; [apply firstn_extend_loop; lia | apply length_extend_loop].
Qed.

Lemma extendFrequencies_keeps_samples_witness :
  exists table,
    extendFrequencies (array_256 table_19TET) 256 = Some table /\
    firstn 128 table = firstn 128 (array_256 table_19TET) /\
    List.length table = List.length (array_256 table_19TET).
Proof.
  apply (extendFrequencies_keeps_samples (array_256 table_19TET) 256).
  vm_compute. split; discriminate.
Defined.

(** C5. Whenever inferScaleSize reports a found result, the scale size is
    between 1 and 128; so the assertion of extendFrequencies that the scale
    size does not exceed 128 never fails: extendFrequencies returns, for
    every requested length. *)
Theorem scaleSize_within_assertion (frequency : list float)
    (Hsamples : (128 <= List.length frequency)%nat) :
  (forall s p, inferScaleSize frequency = (s, p) -> found (s, p) ->
     1 <= s <= 128) /\
  (forall s p, inferScaleSize frequency = (s, p) -> s <= 128) /\
  (forall length, exists table, extendFrequencies frequency length = Some table).
Proof.
  split; [ | split].
  - intros s p Hinfer Hfound.
    destruct (extendFrequencies_found frequency 128 s p Hinfer Hfound) as (Hs & _).
    lia.
  - intros s p Hinfer.
    destruct (inferScaleSize_shape frequency) as [Heq | (s' & p' & Heq & Hs & Hp)];
      rewrite Heq in Hinfer; injection Hinfer as <- <-; lia.
  - intros length. apply extendFrequencies_returns.
Qed.

Lemma scaleSize_within_assertion_witness :
  (forall s p, inferScaleSize table_19TET = (s, p) -> found (s, p) ->
     1 <= s <= 128) /\
  (forall s p, inferScaleSize table_19TET = (s, p) -> s <= 128) /\
  (forall length, exists table, extendFrequencies table_19TET length = Some table).
Proof.
  apply (scaleSize_within_assertion table_19TET).
  vm_compute. lia.
Defined.

(** C6, as the code has it.  For every length below 128, the facade
    getFrequencies fails its assertion, before it touches the array;
    extendFrequencies has no assertion on the length: called with such a
    length on an array that holds the 128 samples it writes nothing and
    returns the array as it is. *)
Theorem short_length_faults_at_facade (MTS_NoteToFrequency : Z -> float)
    (frequency : list float) (length : Z) (Hshort : length < 128) :
  getFrequencies MTS_NoteToFrequency frequency length = None /\
  ((128 <= List.length frequency)%nat ->
   extendFrequencies frequency length = Some frequency).
Proof.
  split.
  - unfold getFrequencies. destruct (Z.leb_spec 128 length); [lia | reflexivity].
  - intros _. assert (Hloop : Z.to_nat (length - 128) = 0%nat) by lia.
    destruct (inferScaleSize_shape frequency) as [Heq | (s & p & Heq & Hs & Hp)].
    + rewrite (extendFrequencies_not_found _ length Heq), Hloop. reflexivity.
    + destruct (extendFrequencies_found frequency length s p Heq) as (_ & _ & Hext).
      { unfold found. intros H. injection H as H _. lia. }
      rewrite Hext, Hloop. reflexivity.
Qed.

Lemma short_length_faults_at_facade_witness :
  getFrequencies (load table_12TET) table_19TET 127 = None /\
  extendFrequencies table_19TET 127 = Some table_19TET.
Proof.
  destruct (short_length_faults_at_facade (load table_12TET) table_19TET 127)
    as [Hfacade Hextend]; [lia | ].
  split; [exact Hfacade | ].
  apply Hextend. vm_compute. lia.
Defined.

(** C6, as the claim has it, fails: called with length 127 on the 19TET
    table, extendFrequencies fails no assertion and returns the table. *)
Lemma extendFrequencies_short_length_returns :
  127 < 128 /\ extendFrequencies table_19TET 127 = Some table_19TET.
Proof. split; [lia | vm_compute; reflexivity]. Qed.

(** C7. The two comparisons of the search are strict, with the absolute
    tolerance 1e-6: a candidate is accepted exactly when
    |table[j] - p * table[i]| < 1e-6 and
    |table[j + 1] - p * table[i + 1]| < 1e-6, and a table is classified as
    periodic exactly when some triple of the search passes both.  A
    deviation of 1e-6 or more on a point is rejected; a table whose only
    candidate deviates by 1e-5 on both points is not periodic; with a
    deviation of 1e-7 it is periodic. *)
Theorem tolerance_strict_1e_6 :
  (forall frequency period i j,
     accept frequency period i j
       (PrimFloat.mul (double_of_int period) (load frequency i)) = true <->
     PrimFloat.ltb
       (PrimFloat.abs
          (PrimFloat.sub (load frequency j)
             (PrimFloat.mul (double_of_int period) (load frequency i))))
       1e-6%float = true /\
     PrimFloat.ltb
       (PrimFloat.abs
          (PrimFloat.sub (load frequency (j + 1))
             (PrimFloat.mul (double_of_int period) (load frequency (i + 1)))))
       1e-6%float = true) /\
  (forall frequency,
     found (inferScaleSize frequency) <->
     exists period i j,
       2 <= period <= 100 /\ 0 <= i <= 126 /\
       PrimFloat.ltb 10%float (load frequency i) = true /\ i <= j <= 126 /\
       PrimFloat.ltb
         (PrimFloat.abs
            (PrimFloat.sub (load frequency j)
               (PrimFloat.mul (double_of_int period) (load frequency i))))
         1e-6%float = true /\
       PrimFloat.ltb
         (PrimFloat.abs
            (PrimFloat.sub (load frequency (j + 1))
               (PrimFloat.mul (double_of_int period) (load frequency (i + 1)))))
         1e-6%float = true) /\
  (forall a b,
     PrimFloat.leb 1e-6%float (PrimFloat.abs (PrimFloat.sub a b)) = true ->
     within_tolerance a b = false) /\
  (accept (table_deviation 1e-5) 2 0 2
     (PrimFloat.mul (double_of_int 2) (load (table_deviation 1e-5) 0)) = false /\
   inferScaleSize (table_deviation 1e-5) = (-1, -1)) /\
  (accept (table_deviation 1e-7) 2 0 2
     (PrimFloat.mul (double_of_int 2) (load (table_deviation 1e-7) 0)) = true /\
   inferScaleSize (table_deviation 1e-7) = (2, 2)).
Proof.
  split; [ | split; [ | split; [ | split]]].
  - intros frequency period i j. apply accept_true_iff.
  - intros frequency. unfold found. split.
    + intros Hfound. destruct (search frequency) as [[[p i] j] | ] eqn:H.
      * exists p, i, j. apply search_some_first in H. destruct H as [Hc _].
        apply candidate_accept in Hc. rewrite accept_true_iff in Hc. exact Hc.
      * destruct (Hfound (inferScaleSize_none _ H)).
    + intros (p & i & j & Hc) Hres.
      assert (Hcand : candidate frequency p i j)
        by (apply candidate_accept; rewrite accept_true_iff; exact Hc).
      destruct (search frequency) as [[[p' i'] j'] | ] eqn:H.
      * rewrite (inferScaleSize_some _ _ _ _ H) in Hres.
        apply search_some_step in H. injection Hres as Hs _. lia.
      * destruct (search_none_no_candidate _ H _ _ _ Hcand).
  - intros a b Hdev. apply Binary64.leb_ltb_false. exact Hdev.
  - vm_compute. split; reflexivity.
  - vm_compute. split; reflexivity.
Qed.

(** C8, as the code has it.  For every 128-entry table that repeats at the
    octave every 12 steps and has an entry above 10.0 Hz at an index of at
    most 114, so that some base the search takes has its octave and the
    note after it inside the table, inferScaleSize returns scale size 12
    and period 2. *)
Theorem inferScaleSize_octave_12 (frequency : list float) (i : Z)
    (Hoctave : octave_12 frequency)
    (Hi : 0 <= i <= 114)
    (Hbase : PrimFloat.ltb 10%float (load frequency i) = true) :
  inferScaleSize frequency = (12, 2).
Proof.
  destruct (search_octave frequency i Hoctave Hi Hbase) as (i0 & Hi0 & Hsearch).
  rewrite (inferScaleSize_some _ _ _ _ Hsearch). f_equal. ring.
Qed.

Lemma inferScaleSize_octave_12_witness :
  octave_12 table_12TET /\
  PrimFloat.ltb 10%float (load table_12TET 4) = true /\
  inferScaleSize table_12TET = (12, 2).
Proof.
  assert (Hoctave : octave_12 table_12TET)
    by (apply octave_12b_sound; vm_compute; reflexivity).
  assert (Hbase : PrimFloat.ltb 10%float (load table_12TET 4) = true)
    by (vm_compute; reflexivity).
  split; [exact Hoctave | ]. split; [exact Hbase | ].
  apply (inferScaleSize_octave_12 table_12TET 4 Hoctave); [lia | exact Hbase].
Defined.

(** C8, as the claim has it, fails: the 12-tone equal-tempered table from
    0.001 Hz repeats at the octave every 12 steps, none of its entries is
    above 10.0 Hz, and inferScaleSize finds nothing. *)
Lemma inferScaleSize_octave_12_low :
  octave_12 table_12TET_low /\
  PrimFloat.ltb (load table_12TET_low 127) 10%float = true /\
  inferScaleSize table_12TET_low = (-1, -1).
Proof.
  split; [apply octave_12b_sound; vm_compute; reflexivity | ].
  split; vm_compute; reflexivity.
Qed.

(** C9. inferScaleSize is a function of the 128 samples: on two arrays
    with the same first 128 entries it returns the same scale size and
    period. *)
Theorem inferScaleSize_deterministic (f g : list float)
    (Hf : (128 <= List.length f)%nat) (Hg : (128 <= List.length g)%nat)
    (Hsame : firstn 128 f = firstn 128 g) :
  inferScaleSize f = inferScaleSize g.
Proof. apply inferScaleSize_same_samples, same_samples_firstn. exact Hsame. Qed.

Lemma inferScaleSize_deterministic_witness :
  firstn 128 table_19TET = firstn 128 (array_256 table_19TET) /\
  inferScaleSize table_19TET = inferScaleSize (array_256 table_19TET).
Proof.
  assert (Hsame : firstn 128 table_19TET = firstn 128 (array_256 table_19TET))
    by reflexivity.
  split; [exact Hsame | ].
  apply (inferScaleSize_deterministic table_19TET (array_256 table_19TET));
    [vm_compute; lia | vm_compute; lia | exact Hsame].
Defined.

(** C10. The result of inferScaleSize is either (-1, -1) or a pair (s, p)
    with 1 <= s <= 126 and 2 <= p <= 100.  No base above 10.0 Hz is accepted
    as its own match: the deviation |table[i] - p * table[i]| is not below
    1e-6, and for a finite base it is at least 10.0.  So the loops never
    exit with [j = i]: the scale size 0 that stands for not found inside the
    function is never the scale size of an acceptance, and the result is
    (-1, -1) exactly when the loops run to their end. *)
Theorem inferScaleSize_result_shapes (frequency : list float)
    (Hsamples : (128 <= List.length frequency)%nat) :
  (inferScaleSize frequency = (-1, -1) \/
   exists s p, inferScaleSize frequency = (s, p) /\
               1 <= s <= 126 /\ 2 <= p <= 100) /\
  (forall period i, 2 <= period <= 100 -> 0 <= i <= 126 ->
     PrimFloat.ltb 10%float (load frequency i) = true ->
     accept frequency period i i
       (PrimFloat.mul (double_of_int period) (load frequency i)) = false /\
     (PrimFloat.is_finite (load frequency i) = true ->
      PrimFloat.leb 10%float
        (PrimFloat.abs
           (PrimFloat.sub (load frequency i)
              (PrimFloat.mul (double_of_int period) (load frequency i)))) = true)) /\
  (forall period i j, search frequency = Some (period, i, j) ->
     j - i <> 0 /\ inferScaleSize frequency = (j - i, period)) /\
  (inferScaleSize frequency = (-1, -1) <-> search frequency = None).
Proof.
  split; [apply inferScaleSize_shape | ].
  split.
  { intros period i Hp _ Hbase. split; [apply accept_self; assumption | ].
    intros Hfin. apply Binary64.self_deviation_above_ten; assumption. }
  split.
  - intros period i j H. split; [ | apply inferScaleSize_some; exact H].
    apply search_some_step in H. lia.
  - split.
    + intros Hres. destruct (search frequency) as [[[p i] j] | ] eqn:H;
        [ | reflexivity].
      rewrite (inferScaleSize_some _ _ _ _ H) in Hres.
      apply search_some_step in H. injection Hres as Hs Hp. lia.
    + apply inferScaleSize_none.
Qed.

Lemma inferScaleSize_result_shapes_witness :
  (128 <= List.length table_p4)%nat /\
  ((inferScaleSize table_p4 = (-1, -1) \/
    exists s p, inferScaleSize table_p4 = (s, p) /\
                1 <= s <= 126 /\ 2 <= p <= 100) /\
   (forall period i, 2 <= period <= 100 -> 0 <= i <= 126 ->
      PrimFloat.ltb 10%float (load table_p4 i) = true ->
      accept table_p4 period i i
        (PrimFloat.mul (double_of_int period) (load table_p4 i)) = false /\
      (PrimFloat.is_finite (load table_p4 i) = true ->
       PrimFloat.leb 10%float
         (PrimFloat.abs
            (PrimFloat.sub (load table_p4 i)
               (PrimFloat.mul (double_of_int period) (load table_p4 i)))) = true)) /\
   (forall period i j, search table_p4 = Some (period, i, j) ->
      j - i <> 0 /\ inferScaleSize table_p4 = (j - i, period)) /\
   (inferScaleSize table_p4 = (-1, -1) <-> search table_p4 = None)).
Proof.
  assert (Hlen : (128 <= List.length table_p4)%nat) by (vm_compute; lia).
  split; [exact Hlen | ].
  exact (inferScaleSize_result_shapes table_p4 Hlen).
Defined.

(** ** Further properties of the code *)

(** *** getMTSESPFrequencies *)

Lemma skipn_store_nat f : forall n i v,
  (i < n)%nat -> skipn n (store_nat f i v) = skipn n f.
Proof.
  induction f as [ | x f IH]; intros [ | n] [ | i] v Hi; cbn [store_nat skipn];
    try reflexivity; try lia.
  apply IH. lia.
Qed.

Section Sampler.

Variable MTS_NoteToFrequency : Z -> float.

Lemma length_sample_loop n : forall i f,
  List.length (sample_loop MTS_NoteToFrequency n i f) = List.length f.
Proof.
  induction n as [ | n IH]; intros i f; cbn [sample_loop]; [reflexivity | ].
  rewrite IH. apply length_store.
Qed.

Lemma load_sample_loop_outside n : forall i f k,
  0 <= i -> 0 <= k -> k < i \/ i + Z.of_nat n <= k ->
  load (sample_loop MTS_NoteToFrequency n i f) k = load f k.
Proof.
  induction n as [ | n IH]; intros i f k Hi Hk Hout; cbn [sample_loop];
    [reflexivity | ].
  rewrite IH by lia. apply load_store_other; lia.
Qed.

Lemma load_sample_loop_written n : forall i f k,
  0 <= i -> i + Z.of_nat n <= Z.of_nat (List.length f) ->
  i <= k < i + Z.of_nat n ->
  load (sample_loop MTS_NoteToFrequency n i f) k = MTS_NoteToFrequency k.
Proof.
  induction n as [ | n IH]; intros i f k Hi Hcap Hk; [lia | ].
  cbn [sample_loop].
  destruct (Z.eq_dec k i) as [-> | Hne].
  - rewrite load_sample_loop_outside by lia. apply load_store_same. lia.
  - apply IH; [lia | rewrite length_store; lia | lia].
Qed.

Lemma skipn_sample_loop n : forall i f m,
  0 <= i -> i + Z.of_nat n <= Z.of_nat m ->
  skipn m (sample_loop MTS_NoteToFrequency n i f) = skipn m f.
Proof.
  induction n as [ | n IH]; intros i f m Hi Hm; cbn [sample_loop];
    [reflexivity | ].
  rewrite IH by lia. apply skipn_store_nat. lia.
Qed.

End Sampler.

(** X1. On an array of at least 128 entries, getMTSESPFrequencies sets entry
    [i] to the frequency of note [i] for every [i] from 0 to 127, and leaves
    the size of the array and every entry from 128 on as they are. *)
Theorem getMTSESPFrequencies_samples (MTS_NoteToFrequency : Z -> float)
    (frequency : list float)
    (Hcapacity : (128 <= List.length frequency)%nat) :
  List.length (getMTSESPFrequencies MTS_NoteToFrequency frequency)
    = List.length frequency /\
  (forall i, 0 <= i <= 127 ->
     load (getMTSESPFrequencies MTS_NoteToFrequency frequency) i
       = MTS_NoteToFrequency i) /\
  (forall k, 128 <= k ->
     load (getMTSESPFrequencies MTS_NoteToFrequency frequency) k
       = load frequency k).
Proof.
  unfold getMTSESPFrequencies. split; [apply length_sample_loop | ]. split.
  - intros i Hi. apply load_sample_loop_written; lia.
  - intros k Hk. apply load_sample_loop_outside; lia.
Qed.

Lemma getMTSESPFrequencies_samples_witness :
  List.length (getMTSESPFrequencies (load table_19TET) (array_256 table_bagpipe4))
    = List.length (array_256 table_bagpipe4) /\
  (forall i, 0 <= i <= 127 ->
     load (getMTSESPFrequencies (load table_19TET) (array_256 table_bagpipe4)) i
       = load table_19TET i) /\
  (forall k, 128 <= k ->
     load (getMTSESPFrequencies (load table_19TET) (array_256 table_bagpipe4)) k
       = load (array_256 table_bagpipe4) k).
Proof.
  apply (getMTSESPFrequencies_samples (load table_19TET) (array_256 table_bagpipe4)).
  vm_compute. lia.
Defined.

(** *** extendFrequencies *)

Lemma store_nat_nth f : forall i d, store_nat f i (nth i f d) = f.
Proof.
  induction f as [ | x f IH]; intros [ | i] d; cbn [store_nat nth];
    try reflexivity.
  rewrite IH. reflexivity.
Qed.

Lemma store_load f i : store f i (load f i) = f.
Proof. apply store_nat_nth. Qed.

Section ExtendLoopMore.

Variable rhs : list float -> Z -> float.

(** The loop writes no entry from its bound on. *)
Lemma skipn_extend_loop n : forall i f m,
  0 <= i -> i + Z.of_nat n <= Z.of_nat m ->
  skipn m (extend_loop n i rhs f) = skipn m f.
Proof.
  induction n as [ | n IH]; intros i f m Hi Hm; cbn [extend_loop];
    [reflexivity | ].
  rewrite IH by lia. apply skipn_store_nat. lia.
Qed.

(** A loop that assigns to every entry the value it has changes nothing. *)
Lemma extend_loop_fixed n : forall i f,
  (forall k, i <= k < i + Z.of_nat n -> rhs f k = load f k) ->
  extend_loop n i rhs f = f.
Proof.
  induction n as [ | n IH]; intros i f Hfix; cbn [extend_loop];
    [reflexivity | ].
  rewrite (Hfix i) by lia. rewrite store_load.
  apply IH. intros k Hk. apply Hfix. lia.
Qed.

(** A loop to a bound, then on to a further bound, is the loop to the
    further bound. *)
Lemma extend_loop_add n m : forall i f,
  extend_loop (n + m) i rhs f
    = extend_loop m (i + Z.of_nat n) rhs (extend_loop n i rhs f).
Proof.
  induction n as [ | n IH]; intros i f.
  - cbn [Nat.add extend_loop]. rewrite Z.add_0_r. reflexivity.
  - cbn [Nat.add extend_loop]. rewrite IH. f_equal. lia.
Qed.

Hypothesis rhs_reads_below : forall f g k,
  128 <= k -> (forall u, 0 <= u < k -> load f u = load g u) ->
  rhs f k = rhs g k.

(** What the loop writes depends on the 128 samples only. *)
Lemma load_extend_loop_same_samples n f g :
  same_samples f g ->
  128 + Z.of_nat n <= Z.of_nat (List.length f) ->
  128 + Z.of_nat n <= Z.of_nat (List.length g) ->
  forall k, 0 <= k < 128 + Z.of_nat n ->
    load (extend_loop n 128 rhs f) k = load (extend_loop n 128 rhs g) k.
Proof.
  intros Hfg Hf Hg.
  assert (Hall : forall b : nat, forall k, 0 <= k < Z.of_nat b ->
            k < 128 + Z.of_nat n ->
            load (extend_loop n 128 rhs f) k = load (extend_loop n 128 rhs g) k).
  { induction b as [ | b IH]; intros k Hk Hn; [lia | ].
    destruct (Z_lt_ge_dec k 128) as [Hlow | Hhigh].
    - rewrite !load_extend_loop_below by lia. apply Hfg. lia.
    - rewrite (load_extend_loop_written rhs rhs_reads_below n 128 f k) by lia.
      rewrite (load_extend_loop_written rhs rhs_reads_below n 128 g k) by lia.
      apply rhs_reads_below; [lia | ].
      intros u Hu. apply IH; lia. }
  intros k Hk. apply (Hall (Z.to_nat (k + 1))); lia.
Qed.

End ExtendLoopMore.

Lemma extendFrequencies_loop frequency length :
  extendFrequencies frequency length =
    Some (extend_loop (Z.to_nat (length - 128)) 128
            (extension_rhs (inferScaleSize frequency)) frequency).
Proof.
  destruct (inferScaleSize_shape frequency) as [Heq | (s & p & Heq & Hs & Hp)].
  - rewrite (extendFrequencies_not_found _ length Heq), Heq. reflexivity.
  - destruct (extendFrequencies_found frequency length s p Heq) as (_ & _ & Hext).
    { unfold found. intros H. injection H as H _. lia. }
    rewrite Hext, Heq. unfold extension_rhs.
    destruct (Z.ltb_spec 0 s); [reflexivity | lia].
Qed.

Lemma extension_rhs_reads_below frequency f g k :
  128 <= k -> (forall u, 0 <= u < k -> load f u = load g u) ->
  extension_rhs (inferScaleSize frequency) f k
    = extension_rhs (inferScaleSize frequency) g k.
Proof.
  intros Hk Hfg.
  destruct (inferScaleSize_shape frequency) as [Heq | (s & p & Heq & Hs & Hp)];
    rewrite Heq; unfold extension_rhs.
  - cbn. apply Hfg. lia.
  - destruct (Z.ltb_spec 0 s); [ | lia]. rewrite (Hfg (k - s)) by lia.
    reflexivity.
Qed.

Lemma firstn_pointwise (n : nat) : forall (f g : list float) d,
  (n <= List.length f)%nat -> (n <= List.length g)%nat ->
  (forall k, (k < n)%nat -> nth k f d = nth k g d) ->
  firstn n f = firstn n g.
Proof.
  induction n as [ | n IH]; intros f g d Hf Hg Hfg; [reflexivity | ].
  destruct f as [ | x f]; [cbn in Hf; lia | ].
  destruct g as [ | y g]; [cbn in Hg; lia | ].
  cbn [firstn]. f_equal.
  - apply (Hfg 0%nat). lia.
  - apply (IH f g d); cbn [List.length] in Hf, Hg; try lia.
    intros k Hk. apply (Hfg (S k)). lia.
Qed.

Lemma forallb_window (P : float -> bool) (f : list float) (a b : nat) d :
  forallb P (skipn a (firstn b f)) = true ->
  (b <= List.length f)%nat ->
  forall k, (a <= k < b)%nat -> P (nth k f d) = true.
Proof.
  intros Hall Hb k Hk. rewrite forallb_forall in Hall. apply Hall.
  assert (Hnth : nth k f d = nth (k - a) (skipn a (firstn b f)) d).
  { rewrite nth_skipn, nth_firstn.
    replace (a + (k - a))%nat with k by lia.
    destruct (Nat.ltb_spec k b); [reflexivity | lia]. }
  rewrite Hnth. apply nth_In. rewrite length_skipn, length_firstn. lia.
Qed.

(** X2. extendFrequencies writes no entry from [length] on: whatever the
    array holds there is kept. *)
Theorem extendFrequencies_keeps_tail (frequency : list float) (length : Z)
    (Hlength : 128 <= length <= Z.of_nat (List.length frequency)) :
  exists table,
    extendFrequencies frequency length = Some table /\
    skipn (Z.to_nat length) table = skipn (Z.to_nat length) frequency.
Proof.
  rewrite extendFrequencies_loop. eexists. split; [reflexivity | ].
  apply skipn_extend_loop; lia.
Qed.

Lemma extendFrequencies_keeps_tail_witness :
  exists table,
    extendFrequencies (array_256 table_19TET) 200 = Some table /\
    skipn (Z.to_nat 200) table = skipn (Z.to_nat 200) (array_256 table_19TET).
Proof.
  apply (extendFrequencies_keeps_tail (array_256 table_19TET) 200).
  vm_compute. split; discriminate.
Defined.

(** X3. Extending a table that extendFrequencies returned for a length
    [l1] to a length [l2 >= l1] gives the table that extending the input
    to [l2] gives; with [l2 = l1], extending a second time changes
    nothing. *)
Theorem extendFrequencies_again (frequency : list float) (l1 l2 : Z)
    (Hl1 : 128 <= l1 <= l2)
    (Hl2 : l2 <= Z.of_nat (List.length frequency)) :
  exists table,
    extendFrequencies frequency l1 = Some table /\
    extendFrequencies table l2 = extendFrequencies frequency l2.
Proof.
  rewrite extendFrequencies_loop. eexists. split; [reflexivity | ].
  set (rhs := extension_rhs (inferScaleSize frequency)).
  set (n := Z.to_nat (l1 - 128)).
  assert (Hinfer : inferScaleSize (extend_loop n 128 rhs frequency)
                   = inferScaleSize frequency).
  { apply inferScaleSize_same_samples, same_samples_firstn.
    apply firstn_extend_loop. lia. }
  rewrite !extendFrequencies_loop, Hinfer. fold rhs. f_equal.
  replace (Z.to_nat (l2 - 128)) with (n + Z.to_nat (l2 - l1))%nat by lia.
  rewrite !extend_loop_add. f_equal.
  apply extend_loop_fixed. intros k Hk. symmetry.
  apply load_extend_loop_written; try lia.
  intros f g u Hu Hfg. apply extension_rhs_reads_below; assumption.
Qed.

Lemma extendFrequencies_again_witness :
  exists table,
    extendFrequencies (array_256 table_19TET) 200 = Some table /\
    extendFrequencies table 256 = extendFrequencies (array_256 table_19TET) 256.
Proof.
  apply (extendFrequencies_again (array_256 table_19TET) 200 256).
  - lia.
  - vm_compute. discriminate.
Defined.

(** X4. When inference finds (s, p), every entry that extendFrequencies
    writes is one of the last [s] samples multiplied by [p] once for every
    [s] steps above it: table[j + m * s] is [p * (... * (p * table[j]))]
    with [m] products, for [j] from [128 - s] to 127, and every index from
    128 to the length is such a [j + m * s]. *)
Theorem extendFrequencies_closed_form (frequency : list float) (length s p : Z)
    (Hlength : 128 <= length <= Z.of_nat (List.length frequency))
    (Hinfer : inferScaleSize frequency = (s, p))
    (Hfound : found (s, p)) :
  exists table,
    extendFrequencies frequency length = Some table /\
    (forall j m, 128 - s <= j <= 127 -> j + Z.of_nat m * s < length ->
       load table (j + Z.of_nat m * s)
         = Nat.iter m (PrimFloat.mul (double_of_int p)) (load frequency j)) /\
    (forall k, 128 <= k < length ->
       exists j m, 128 - s <= j <= 127 /\ k = j + Z.of_nat m * s).
Proof.
  destruct (extendFrequencies_found frequency length s p Hinfer Hfound)
    as (Hs & Hp & Hext).
  eexists. split; [exact Hext | ]. split.
  - intros j m Hj. induction m as [ | m IH]; intros Hm.
    + replace (j + Z.of_nat 0 * s) with j by lia.
      apply load_extend_loop_below. lia.
    + rewrite Nat.iter_succ, <- IH by lia.
      rewrite (load_extend_loop_written
                 (fun f i => PrimFloat.mul (double_of_int p) (load f (i - s))));
        try lia.
      * cbv beta. do 2 f_equal. lia.
      * intros f g u Hu Hfg. cbv beta. rewrite (Hfg (u - s)) by lia. reflexivity.
  - intros k Hk.
    exists (128 - s + (k - 128) mod s), (Z.to_nat ((k - 128) / s + 1)).
    pose proof (Z.mod_pos_bound (k - 128) s ltac:(lia)) as Hmod.
    pose proof (Z.div_pos (k - 128) s ltac:(lia) ltac:(lia)) as Hdiv.
    pose proof (Z.div_mod (k - 128) s ltac:(lia)) as Hdm.
    split; [lia | ]. rewrite Z2Nat.id by lia. lia.
Qed.

Lemma extendFrequencies_closed_form_witness :
  exists table,
    extendFrequencies (array_256 table_19TET) 256 = Some table /\
    (forall j m, 128 - 19 <= j <= 127 -> j + Z.of_nat m * 19 < 256 ->
       load table (j + Z.of_nat m * 19)
         = Nat.iter m (PrimFloat.mul (double_of_int 2))
             (load (array_256 table_19TET) j)) /\
    (forall k, 128 <= k < 256 ->
       exists j m, 128 - 19 <= j <= 127 /\ k = j + Z.of_nat m * 19).
Proof.
  apply (extendFrequencies_closed_form (array_256 table_19TET) 256 19 2).
  - vm_compute. split; discriminate.
  - vm_compute. reflexivity.
  - unfold found. discriminate.
Defined.

Lemma extend_same_samples (f g : list float) (length : Z) :
  128 <= length <= Z.of_nat (List.length f) ->
  length <= Z.of_nat (List.length g) ->
  same_samples f g ->
  exists tf tg,
    extendFrequencies f length = Some tf /\
    extendFrequencies g length = Some tg /\
    List.length tf = List.length f /\
    firstn 128 tf = firstn 128 f /\
    skipn (Z.to_nat length) tf = skipn (Z.to_nat length) f /\
    firstn (Z.to_nat length) tf = firstn (Z.to_nat length) tg.
Proof.
  intros Hf Hg Hsame.
  rewrite !extendFrequencies_loop, <- (inferScaleSize_same_samples f g Hsame).
  eexists. eexists. split; [reflexivity | ]. split; [reflexivity | ].
  split; [apply length_extend_loop | ].
  split; [apply firstn_extend_loop; lia | ].
  split; [apply skipn_extend_loop; lia | ].
  apply (firstn_pointwise _ _ _ PrimFloat.zero).
  - rewrite length_extend_loop. lia.
  - rewrite length_extend_loop. lia.
  - intros k Hk.
    pose proof (load_extend_loop_same_samples
                  (extension_rhs (inferScaleSize f))
                  (extension_rhs_reads_below f)
                  (Z.to_nat (length - 128)) f g Hsame
                  ltac:(lia) ltac:(lia) (Z.of_nat k) ltac:(lia)) as Heq.
    unfold load in Heq. rewrite Nat2Z.id in Heq. exact Heq.
Qed.

(** X6. The table that extendFrequencies returns is, below [length], a
    function of the 128 samples and of [length]: two arrays with the same
    first 128 entries give the same first [length] entries. *)
Theorem extendFrequencies_same_samples (f g : list float) (length : Z)
    (Hf : 128 <= length <= Z.of_nat (List.length f))
    (Hg : length <= Z.of_nat (List.length g))
    (Hsame : firstn 128 f = firstn 128 g) :
  exists tf tg,
    extendFrequencies f length = Some tf /\
    extendFrequencies g length = Some tg /\
    firstn (Z.to_nat length) tf = firstn (Z.to_nat length) tg.
Proof.
  destruct (extend_same_samples f g length Hf Hg (same_samples_firstn _ _ Hsame))
    as (tf & tg & Htf & Htg & _ & _ & _ & Heq).
  exists tf, tg. auto.
Qed.

Lemma extendFrequencies_same_samples_witness :
  exists tf tg,
    extendFrequencies (array_256 table_19TET) 200 = Some tf /\
    extendFrequencies (table_19TET ++ table_bagpipe4) 200 = Some tg /\
    firstn (Z.to_nat 200) tf = firstn (Z.to_nat 200) tg.
Proof.
  apply (extendFrequencies_same_samples (array_256 table_19TET)
           (table_19TET ++ table_bagpipe4) 200).
  - vm_compute. split; discriminate.
  - vm_compute. discriminate.
  - reflexivity.
Defined.

(** *** Frequencies above 10.0 Hz *)

(** A multiple by 2 to 100 of a frequency above 10.0 is above 10.0 (it may
    be infinite). *)
Lemma mul_above_ten (x : float) (p : Z) :
  PrimFloat.ltb 10%float x = true -> 2 <= p <= 100 ->
  PrimFloat.ltb 10%float (PrimFloat.mul (double_of_int p) x) = true.
Proof.
  intros Hx Hp.
  destruct (Binary64.int_double_small p Hp) as (pm & pe & Hpm & Hpe & Hpv & Hpr).
  destruct (Binary64.above_ten_spec x Hx) as [Hinf | (m & e & Hxm & He & Hdm)];
    rewrite ltb_spec, mul_spec, Hpm;
    change (Prim2SF 10%float) with (S754_finite false 5629499534213120 (-49)).
  - rewrite Hinf. reflexivity.
  - rewrite Hxm. unfold SF64mul, SFmul. cbn [xorb].
    change prec with 53. change emax with 1024.
    pose proof (Binary64.digits2_pos_bounds m) as [Mlo Mhi].
    rewrite Hdm in Mlo, Mhi. change (53 - 1) with 52 in Mlo.
    assert (HM : 2 ^ 104 <= Zpos (pm * m)).
    { rewrite Pos2Z.inj_mul. change (2 ^ 104) with (2 ^ 52 * 2 ^ 52). nia. }
    assert (Hd : 104 < Zpos (digits2_pos (pm * m)))
      by (apply Binary64.digits2_pos_lower; lia).
    assert (He' : -49 <= e) by (unfold sf_above_ten in He; lia).
    destruct (Binary64.binary_round_aux_lower false (pm * m) (pe + e))
      as [Hinf | (m3 & e3 & Heq & He3 & _)]; [lia | rewrite Hinf; reflexivity | ].
    rewrite Heq. unfold SFltb, SFcompare.
    destruct (Z.compare_spec (-49) e3); try lia; reflexivity.
Qed.

(** X5. When inference finds (s, p) and the last [s] samples are above
    10.0 Hz, every entry that extendFrequencies writes is above 10.0 Hz: no
    extended entry is a NaN, zero or negative. *)
Theorem extendFrequencies_above_ten (frequency : list float) (length s p : Z)
    (Hlength : 128 <= length <= Z.of_nat (List.length frequency))
    (Hinfer : inferScaleSize frequency = (s, p))
    (Hfound : found (s, p))
    (Hlast : forallb (PrimFloat.ltb 10%float)
               (skipn (Z.to_nat (128 - s)) (firstn 128 frequency)) = true) :
  exists table,
    extendFrequencies frequency length = Some table /\
    forall k, 128 <= k < length ->
      PrimFloat.ltb 10%float (load table k) = true.
Proof.
  destruct (extendFrequencies_found frequency length s p Hinfer Hfound)
    as (Hs & Hp & Hext).
  eexists. split; [exact Hext | ].
  set (rhs := fun f i => PrimFloat.mul (double_of_int p) (load f (i - s))).
  set (table := extend_loop (Z.to_nat (length - 128)) 128 rhs frequency).
  assert (Hall : forall b : nat, forall k, 128 - s <= k < Z.of_nat b ->
            k < length -> PrimFloat.ltb 10%float (load table k) = true).
  { induction b as [ | b IH]; intros k Hk Hn; [lia | ].
    destruct (Z_lt_ge_dec k 128) as [Hlow | Hhigh].
    - unfold table. rewrite load_extend_loop_below by lia. unfold load.
      apply (forallb_window _ _ _ _ _ Hlast); lia.
    - unfold table.
      rewrite (load_extend_loop_written rhs) by
        (try lia; intros f g u Hu Hfg; unfold rhs; rewrite (Hfg (u - s)) by lia;
         reflexivity).
      unfold rhs at 1. apply mul_above_ten; [ | lia].
      apply IH; lia. }
  intros k Hk. apply (Hall (Z.to_nat (k + 1))); lia.
Qed.

Lemma extendFrequencies_above_ten_witness :
  exists table,
    extendFrequencies (array_256 table_19TET) 256 = Some table /\
    forall k, 128 <= k < 256 ->
      PrimFloat.ltb 10%float (load table k) = true.
Proof.
  apply (extendFrequencies_above_ten (array_256 table_19TET) 256 19 2).
  - vm_compute. split; discriminate.
  - vm_compute. reflexivity.
  - unfold found. discriminate.
  - vm_compute. reflexivity.
Defined.

(** *** getFrequencies *)

(** X7. For every length from 128 on that the array holds, getFrequencies
    returns a table: its entries 0 to 127 are the frequencies of the tuning
    source, its entries below [length] do not depend on what the array held
    before the call, and its entries from [length] on and its size are
    those of the array. *)
Theorem getFrequencies_table (MTS_NoteToFrequency : Z -> float)
    (f g : list float) (length : Z)
    (Hf : 128 <= length <= Z.of_nat (List.length f))
    (Hg : length <= Z.of_nat (List.length g)) :
  exists tf tg,
    getFrequencies MTS_NoteToFrequency f length = Some tf /\
    getFrequencies MTS_NoteToFrequency g length = Some tg /\
    List.length tf = List.length f /\
    (forall i, 0 <= i <= 127 -> load tf i = MTS_NoteToFrequency i) /\
    firstn (Z.to_nat length) tf = firstn (Z.to_nat length) tg /\
    skipn (Z.to_nat length) tf = skipn (Z.to_nat length) f.
Proof.
  unfold getFrequencies. destruct (Z.leb_spec 128 length); [ | lia].
  unfold getMTSESPFrequencies.
  set (f' := sample_loop MTS_NoteToFrequency 128 0 f).
  set (g' := sample_loop MTS_NoteToFrequency 128 0 g).
  assert (Hlf : List.length f' = List.length f) by apply length_sample_loop.
  assert (Hlg : List.length g' = List.length g) by apply length_sample_loop.
  assert (Hsf : forall i, 0 <= i <= 127 -> load f' i = MTS_NoteToFrequency i)
    by (intros i Hi; apply load_sample_loop_written; lia).
  assert (Hsg : forall i, 0 <= i <= 127 -> load g' i = MTS_NoteToFrequency i)
    by (intros i Hi; apply load_sample_loop_written; lia).
  assert (Hsame : same_samples f' g')
    by (intros i Hi; rewrite Hsf, Hsg by lia; reflexivity).
  destruct (extend_same_samples f' g' length) as
    (tf & tg & Htf & Htg & Hlen & Hfirst & Htail & Heq); try lia; [exact Hsame | ].
  exists tf, tg. split; [exact Htf | ]. split; [exact Htg | ].
  split; [congruence | ]. split; [ | split; [exact Heq | ]].
  - intros i Hi. rewrite (same_samples_firstn _ _ Hfirst i) by lia.
    apply Hsf. exact Hi.
  - rewrite Htail.
    apply skipn_sample_loop; lia.
Qed.

Lemma getFrequencies_table_witness :
  exists tf tg,
    getFrequencies (load table_19TET) (array_256 table_bagpipe4) 200 = Some tf /\
    getFrequencies (load table_19TET) (array_256 table_12TET) 200 = Some tg /\
    List.length tf = List.length (array_256 table_bagpipe4) /\
    (forall i, 0 <= i <= 127 -> load tf i = load table_19TET i) /\
    firstn (Z.to_nat 200) tf = firstn (Z.to_nat 200) tg /\
    skipn (Z.to_nat 200) tf = skipn (Z.to_nat 200) (array_256 table_bagpipe4).
Proof.
  apply (getFrequencies_table (load table_19TET) (array_256 table_bagpipe4)
           (array_256 table_12TET) 200).
  - vm_compute. split; discriminate.
  - vm_compute. discriminate.
Defined.

(** *** inferScaleSize *)

Lemma for_range_all_none {A : Type} lo hi (body : Z -> option A) :
  (forall v, lo <= v <= hi -> body v = None) ->
  for_range lo hi body = None.
Proof.
  intros Hnone. destruct (for_range lo hi body) as [r | ] eqn:H; [ | reflexivity].
  destruct (for_range_some _ _ _ _ H) as (v & Hv & Hbody & _).
  rewrite (Hnone v Hv) in Hbody. discriminate.
Qed.

Lemma inferScaleSize_no_base_above_ten frequency :
  (forall i, 0 <= i <= 126 ->
     PrimFloat.ltb 10%float (load frequency i) = false) ->
  inferScaleSize frequency = (-1, -1).
Proof.
  intros Hlow. apply inferScaleSize_none. unfold search.
  apply for_range_all_none. intros p Hp. unfold search_i.
  apply for_range_all_none. intros i Hi. cbv beta.
  rewrite (Hlow i Hi). reflexivity.
Qed.

(** X8. A table with no entry above 10.0 Hz among entries 0 to 126 (a
    silent or very low tuning, zeros, negative values or NaNs) has no base
    for the search: inferScaleSize returns (-1, -1), whatever the ratios of
    its entries. *)
Theorem inferScaleSize_no_base (frequency : list float)
    (Hsamples : (128 <= List.length frequency)%nat)
    (Hlow : forallb (fun x => negb (PrimFloat.ltb 10%float x))
              (firstn 127 frequency) = true) :
  inferScaleSize frequency = (-1, -1).
Proof.
  apply inferScaleSize_no_base_above_ten. intros i Hi.
  apply negb_true_iff. unfold load.
  apply (forallb_window _ frequency 0 127 _ Hlow); lia.
Qed.

Lemma inferScaleSize_no_base_witness :
  inferScaleSize table_12TET_low = (-1, -1).
Proof.
  apply (inferScaleSize_no_base table_12TET_low).
  - vm_compute. lia.
  - vm_compute. reflexivity.
Defined.

Lemma octave_scaleb_sound s frequency :
  octave_scaleb s frequency = true -> octave_scale s frequency.
Proof.
  unfold octave_scaleb. intros H. apply andb_prop in H as [Hlen Hall].
  rewrite forallb_forall in Hall.
  assert (Hat : forall i, 0 <= i <= 127 ->
      (negb (i + s <=? 127)
        || within_tolerance (load frequency (i + s))
             (PrimFloat.mul (double_of_int 2) (load frequency i)))
       && (negb (PrimFloat.ltb 10%float (load frequency i))
           || forallb (fun m =>
                let j := Z.of_nat m in
                negb ((i <? j) && (j <? i + s))
                || negb (within_tolerance (load frequency j)
                           (PrimFloat.mul (double_of_int 2) (load frequency i))))
                (seq 0 127)) = true).
  { intros i Hi. specialize (Hall (Z.to_nat i) ltac:(apply in_seq; lia)).
    cbv zeta in Hall. rewrite Z2Nat.id in Hall by lia. exact Hall. }
  constructor.
  - apply Nat.leb_le. exact Hlen.
  - intros i Hi Hs. specialize (Hat i ltac:(lia)).
    apply andb_prop in Hat as [Hoct _].
    destruct (Z.leb_spec (i + s) 127); [ | lia]. exact Hoct.
  - intros i j Hij Hjs Hj Hbase. specialize (Hat i ltac:(lia)).
    apply andb_prop in Hat as [_ Hin]. rewrite Hbase in Hin. cbn [negb orb] in Hin.
    rewrite forallb_forall in Hin.
    specialize (Hin (Z.to_nat j) ltac:(apply in_seq; lia)). cbv zeta in Hin.
    rewrite Z2Nat.id in Hin by lia.
    destruct (Z.ltb_spec i j); [ | lia]. destruct (Z.ltb_spec j (i + s)); [ | lia].
    cbn [andb negb orb] in Hin. apply negb_true_iff. exact Hin.
Qed.

Lemma search_j_octave_scale s frequency i :
  octave_scale s frequency -> 1 <= s -> 0 <= i -> i + s <= 126 ->
  PrimFloat.ltb 10%float (load frequency i) = true ->
  search_j frequency 2 i = Some (2, i, i + s).
Proof.
  intros Hscale Hs Hi His Hbase. unfold search_j. cbv zeta.
  apply for_range_first with (v := i + s); [lia | | ].
  - unfold accept.
    rewrite (scale_octave _ _ Hscale i) by lia.
    replace (i + s + 1) with (i + 1 + s) by ring.
    rewrite (scale_octave _ _ Hscale (i + 1)) by lia. reflexivity.
  - intros j Hj. destruct (Z.eq_dec j i) as [-> | Hne].
    + rewrite accept_self by (assumption || lia). reflexivity.
    + unfold accept.
      rewrite (scale_inside _ _ Hscale i j) by (assumption || lia). reflexivity.
Qed.

(** X9. A table that repeats at the octave every [s] steps, as the search
    measures it, and has an entry above 10.0 Hz with the note [s] steps up
    at an index of at most 126, gives scale size [s] and period 2. *)
Theorem inferScaleSize_octave_scale (frequency : list float) (s i : Z)
    (Hscale : octave_scale s frequency)
    (Hs : 1 <= s) (Hi : 0 <= i) (His : i + s <= 126)
    (Hbase : PrimFloat.ltb 10%float (load frequency i) = true) :
  inferScaleSize frequency = (s, 2).
Proof.
  assert (Hsi : exists i0, 0 <= i0 <= i /\ search_i frequency 2 = Some (2, i0, i0 + s)).
  { unfold search_i.
    destruct (for_range 0 126 _) as [r | ] eqn:H.
    - destruct (for_range_some _ _ _ _ H) as (i0 & Hi0 & Hbody & Hbefore).
      cbv beta in Hbody.
      destruct (Z_le_gt_dec i0 i) as [Hle | Hgt].
      + exists i0. split; [lia | ].
        destruct (PrimFloat.ltb 10%float (load frequency i0)) eqn:Hb0;
          [ | discriminate].
        rewrite (search_j_octave_scale s) in Hbody by (assumption || lia).
        congruence.
      + specialize (Hbefore i ltac:(lia)). cbv beta in Hbefore.
        rewrite Hbase, (search_j_octave_scale s) in Hbefore by (assumption || lia).
        discriminate.
    - pose proof (for_range_none _ _ _ H i ltac:(lia)) as Hnone. cbv beta in Hnone.
      rewrite Hbase, (search_j_octave_scale s) in Hnone by (assumption || lia).
      discriminate. }
  destruct Hsi as (i0 & Hi0 & Hsi).
  assert (Hsearch : search frequency = Some (2, i0, i0 + s)).
  { unfold search. apply for_range_first with (v := 2); [lia | exact Hsi | ].
    intros u Hu. lia. }
  rewrite (inferScaleSize_some _ _ _ _ Hsearch). f_equal. ring.
Qed.

Lemma inferScaleSize_octave_scale_witness :
  octave_scale 19 table_19TET /\ inferScaleSize table_19TET = (19, 2).
Proof.
  assert (Hscale : octave_scale 19 table_19TET)
    by (apply octave_scaleb_sound; vm_compute; reflexivity).
  split; [exact Hscale | ].
  apply (inferScaleSize_octave_scale table_19TET 19 0 Hscale); try lia.
  vm_compute. reflexivity.
Defined.

(** X10. When the tuning source gives no frequency above 10.0 Hz for notes
    0 to 126, getFrequencies continues the table flat: every entry from 127
    to the length is the frequency of note 127. *)
Theorem getFrequencies_low_source (MTS_NoteToFrequency : Z -> float)
    (frequency : list float) (length : Z)
    (Hlength : 128 <= length <= Z.of_nat (List.length frequency))
    (Hlow : forallb (fun n => negb (PrimFloat.ltb 10%float
                                      (MTS_NoteToFrequency (Z.of_nat n))))
              (seq 0 127) = true) :
  exists table,
    getFrequencies MTS_NoteToFrequency frequency length = Some table /\
    forall k, 127 <= k < length -> load table k = MTS_NoteToFrequency 127.
Proof.
  unfold getFrequencies. destruct (Z.leb_spec 128 length); [ | lia].
  unfold getMTSESPFrequencies.
  set (f' := sample_loop MTS_NoteToFrequency 128 0 frequency).
  assert (Hlf : List.length f' = List.length frequency) by apply length_sample_loop.
  assert (Hsf : forall i, 0 <= i <= 127 -> load f' i = MTS_NoteToFrequency i)
    by (intros i Hi; apply load_sample_loop_written; lia).
  assert (Hinfer : inferScaleSize f' = (-1, -1)).
  { apply inferScaleSize_no_base_above_ten. intros i Hi. rewrite Hsf by lia.
    rewrite forallb_forall in Hlow.
    specialize (Hlow (Z.to_nat i) ltac:(apply in_seq; lia)).
    rewrite Z2Nat.id in Hlow by lia. apply negb_true_iff. exact Hlow. }
  rewrite (extendFrequencies_not_found _ length Hinfer).
  eexists. split; [reflexivity | ].
  assert (H127 : load (extend_loop (Z.to_nat (length - 128)) 128
                         (fun f _ => load f 127) f') 127
                 = MTS_NoteToFrequency 127).
  { rewrite load_extend_loop_below by lia. apply Hsf. lia. }
  intros k Hk. destruct (Z.eq_dec k 127) as [-> | Hne]; [exact H127 | ].
  rewrite (load_extend_loop_written (fun f _ => load f 127)); try lia.
  - exact H127.
  - intros f g u Hu Hfg. apply Hfg. lia.
Qed.

Lemma getFrequencies_low_source_witness :
  exists table,
    getFrequencies (load table_12TET_low) (array_256 table_19TET) 256
      = Some table /\
    forall k, 127 <= k < 256 -> load table k = load table_12TET_low 127.
Proof.
  apply (getFrequencies_low_source (load table_12TET_low)
           (array_256 table_19TET) 256).
  - vm_compute. split; discriminate.
  - vm_compute. reflexivity.
Defined.
